(** * Client-side session logic of the number-elimination game

    A shallow embedding of [src/components/Game.tsx]: the React component
    state and refs become one record, every socket handler and every click
    handler becomes a function on that record, and the browser's timer queue
    and the socket's outbound channel are explicit parts of the state, so
    that traces of timestamped events can be run and reasoned about. *)

From Stdlib Require Import String Ascii Sorted.
From Stdlib Require DecimalString DecimalZ.
From stdpp Require Import base option list numbers.

Local Open Scope Z_scope.

(** ** JavaScript strings

    A JavaScript string is a sequence of UTF-16 code units; [length] counts
    code units and [trim] strips the WhiteSpace and LineTerminator code
    points of ECMAScript from both ends. *)

Module Js.

Definition code_unit := N.
Definition str := list code_unit.

Definition of_ascii (s : string) : str :=
  List.map N_of_ascii (list_ascii_of_string s).

Definition is_white_space (c : code_unit) : bool :=
  ((9 <=? c) && (c <=? 13) || (c =? 32) || (c =? 160) || (c =? 5760)
   || (8192 <=? c) && (c <=? 8202) || (c =? 8232) || (c =? 8233)
   || (c =? 8239) || (c =? 8287) || (c =? 12288) || (c =? 65279))%N.

Fixpoint trimStart (s : str) : str :=
  match s with
  | c :: s' => if is_white_space c then trimStart s' else s
  | [] => []
  end.

Definition trimEnd (s : str) : str := rev (trimStart (rev s)).

Definition trim (s : str) : str := trimEnd (trimStart s).

Definition eqb (a b : str) : bool := bool_decide (a = b).

(** [a === b] where [a : string | undefined] and [b : string | null]:
    strict equality holds only between two equal strings, [undefined] and
    [null] being different values. *)
Definition strict_eq (a : option str) (b : option str) : bool :=
  match a, b with
  | Some x, Some y => eqb x y
  | _, _ => false
  end.

(** [Array.from({ length: n }, (_, i) => f i)] for [n] below 2^32: the
    length is clamped below at zero. From 2^32 on the call throws a
    RangeError and returns no array; this function does not describe it
    there. *)
Definition array_from_length {A} (n : Z) (f : Z -> A) : list A :=
  List.map (fun i => f (Z.of_nat i)) (seq 0 (Z.to_nat n)).

End Js.

(** ** Data model (the interfaces of the component) *)

Module Player.
Record t := mk {
  name : Js.str;
  selectedNumber : option Z;
  isEliminated : bool;
  placement : option Z;
  id : Js.str
}.
End Player.

Module GameState.
Record t := mk {
  players : list Player.t;
  numbers : list Z;
  currentTurn : option Js.str;
  currentPlayerName : option Js.str;
  gameStarted : bool;
  boardSize : Z;
  (* not part of the interface, but written by the lobbyJoined reducer *)
  status : option Js.str
}.
End GameState.

Module Placement.
Record t := mk { name : Js.str; number : Z; placement : Z }.
End Placement.

Module GameOverInfo.
Record t := mk { placements : list Placement.t }.
End GameOverInfo.

Module PlayerElimination.
Record t := mk {
  playerName : Js.str;
  number : Z;
  placement : Z;
  totalPlayers : Z
}.
End PlayerElimination.

Inductive GameResult := won | lost.

Inductive LobbyStep := menu | create | join | joining | creating.

(** The socket held in [socketRef]; its [id] is [undefined] until the
    handshake completes. *)
Module Socket.
Record t := mk { id : option Js.str }.
End Socket.

(** ** Messages *)

(** Messages given to [socket.emit]. *)
Inductive Outbound :=
| createLobby (boardSize : Z)
| joinLobby (code playerName : Js.str)
| selectNumber (number : Z)
| startGame
| eliminateNumber (number : Z)
| playerReadyForReplay
| leaveLobby.

(** Messages for which the component registers a handler. [connect]
    carries the id the server assigned to the socket. *)
Inductive Inbound :=
| connect (id : Js.str)
| playerList (players : list Player.t)
| gameStarted (currentTurn currentPlayerName : Js.str) (numbers : list Z)
| numberEliminated (number : Z) (remainingNumbers : list Z)
    (currentTurn currentPlayerName : Js.str)
| error_msg (message : Js.str)
| youWon (placement totalPlayers number : Z)
| youLost (placement totalPlayers number : Z)
| playerEliminated (info : PlayerElimination.t)
| gameOver_msg (info : GameOverInfo.t)
| lobbyCreated (code : Js.str)
| lobbyJoined (boardSize : Z)
| resetNumbers
| lobbyReset (players : list Player.t) (numbers : list Z) (boardSize : Z).

(** ** Timers

    The three callbacks the component ever passes to [setTimeout]. *)
Inductive Callback :=
| clear_error            (* () => setError(null) *)
| clear_eliminationInfo  (* () => setEliminationInfo(null) *)
| clear_justPickedNumber (* () => { justPickedNumber.current = false; } *).

Module Timer.
Record t := mk { handle : positive; due : Z; callback : Callback }.
End Timer.

(** ** Component state

    One field per [useState] / [useRef] of the component, in the order of
    the source, followed by the parts of the environment the handlers act
    on: the clock, the pending timers (ordered by due time, then by
    creation), the next timer handle and the messages emitted so far. *)
Record Client := mkClient {
  playerName : Js.str;
  boardSize : Z;
  gameState : GameState.t;
  error : option Js.str;
  gameOver : bool;
  gameResult : option GameResult;
  gameOverInfo : option GameOverInfo.t;
  eliminationInfo : option PlayerElimination.t;
  showStartScreen : bool;
  showInfo : bool;
  lobbyCode : option Js.str;
  joinCodeInput : Js.str;
  lobbyStep : LobbyStep;
  socketRef : option Socket.t;
  playerNameRef : Js.str;
  mySocketId : option Js.str;
  errorTimeout : option positive;
  justPickedNumber : bool;
  now : Z;
  timers : list Timer.t;
  nextTimer : positive;
  emitted : list Outbound
}.

Definition initialGameState : GameState.t :=
  GameState.mk [] (Js.array_from_length 20 (fun i => i + 1)) None None false 20
    None.

(** The state after the first render and the mount effect: the socket has
    been created and stored, no handshake has happened yet. *)
Definition init : Client :=
  mkClient [] 20 initialGameState None false None None None true false None []
    menu (Some (Socket.mk None)) [] None None false 0 [] 1%positive [].

(** *** State setters *)

Definition setPlayerName v (st : Client) : Client :=
  let '(mkClient _ b c d e f g h i j k l m n o p q r s t u w) := st in
  mkClient v b c d e f g h i j k l m n o p q r s t u w.

Definition setGameState (upd : GameState.t -> GameState.t) (st : Client) : Client :=
  let '(mkClient a b c d e f g h i j k l m n o p q r s t u w) := st in
  mkClient a b (upd c) d e f g h i j k l m n o p q r s t u w.

Definition setError v (st : Client) : Client :=
  let '(mkClient a b c _ e f g h i j k l m n o p q r s t u w) := st in
  mkClient a b c v e f g h i j k l m n o p q r s t u w.

Definition setGameOver v (st : Client) : Client :=
  let '(mkClient a b c d _ f g h i j k l m n o p q r s t u w) := st in
  mkClient a b c d v f g h i j k l m n o p q r s t u w.

Definition setGameResult v (st : Client) : Client :=
  let '(mkClient a b c d e _ g h i j k l m n o p q r s t u w) := st in
  mkClient a b c d e v g h i j k l m n o p q r s t u w.

Definition setGameOverInfo v (st : Client) : Client :=
  let '(mkClient a b c d e f _ h i j k l m n o p q r s t u w) := st in
  mkClient a b c d e f v h i j k l m n o p q r s t u w.

Definition setEliminationInfo v (st : Client) : Client :=
  let '(mkClient a b c d e f g _ i j k l m n o p q r s t u w) := st in
  mkClient a b c d e f g v i j k l m n o p q r s t u w.

Definition setShowStartScreen v (st : Client) : Client :=
  let '(mkClient a b c d e f g h _ j k l m n o p q r s t u w) := st in
  mkClient a b c d e f g h v j k l m n o p q r s t u w.

Definition setLobbyCode v (st : Client) : Client :=
  let '(mkClient a b c d e f g h i j _ l m n o p q r s t u w) := st in
  mkClient a b c d e f g h i j v l m n o p q r s t u w.

Definition setJoinCodeInput v (st : Client) : Client :=
  let '(mkClient a b c d e f g h i j k _ m n o p q r s t u w) := st in
  mkClient a b c d e f g h i j k v m n o p q r s t u w.

Definition setLobbyStep v (st : Client) : Client :=
  let '(mkClient a b c d e f g h i j k l _ n o p q r s t u w) := st in
  mkClient a b c d e f g h i j k l v n o p q r s t u w.

Definition set_socketRef v (st : Client) : Client :=
  let '(mkClient a b c d e f g h i j k l m _ o p q r s t u w) := st in
  mkClient a b c d e f g h i j k l m v o p q r s t u w.

Definition setMySocketId v (st : Client) : Client :=
  let '(mkClient a b c d e f g h i j k l m n o _ q r s t u w) := st in
  mkClient a b c d e f g h i j k l m n o v q r s t u w.

Definition set_errorTimeout v (st : Client) : Client :=
  let '(mkClient a b c d e f g h i j k l m n o p _ r s t u w) := st in
  mkClient a b c d e f g h i j k l m n o p v r s t u w.

Definition set_justPickedNumber v (st : Client) : Client :=
  let '(mkClient a b c d e f g h i j k l m n o p q _ s t u w) := st in
  mkClient a b c d e f g h i j k l m n o p q v s t u w.

Definition set_now v (st : Client) : Client :=
  let '(mkClient a b c d e f g h i j k l m n o p q r _ t u w) := st in
  mkClient a b c d e f g h i j k l m n o p q r v t u w.

Definition set_timers v (st : Client) : Client :=
  let '(mkClient a b c d e f g h i j k l m n o p q r s _ u w) := st in
  mkClient a b c d e f g h i j k l m n o p q r s v u w.

Definition set_nextTimer v (st : Client) : Client :=
  let '(mkClient a b c d e f g h i j k l m n o p q r s t _ w) := st in
  mkClient a b c d e f g h i j k l m n o p q r s t v w.

Definition set_emitted v (st : Client) : Client :=
  let '(mkClient a b c d e f g h i j k l m n o p q r s t u _) := st in
  mkClient a b c d e f g h i j k l m n o p q r s t u v.

(** *** The environment: timers and the socket *)

(** Insert after every pending timer that is due no later. *)
Fixpoint enqueue (tm : Timer.t) (q : list Timer.t) : list Timer.t :=
  match q with
  | [] => [tm]
  | x :: q' =>
      if Timer.due x <=? Timer.due tm then x :: enqueue tm q' else tm :: q
  end.

(** [setTimeout(cb, delay)]: returns the handle and the new state. *)
Definition setTimeout (cb : Callback) (delay : Z) (st : Client) : positive * Client :=
  let h := nextTimer st in
  (h, set_nextTimer (Pos.succ h)
        (set_timers (enqueue (Timer.mk h (now st + delay) cb) (timers st)) st)).

(** [clearTimeout(h)]: a handle that already fired is ignored. *)
Definition clearTimeout (h : positive) (st : Client) : Client :=
  set_timers (List.filter (fun x => negb (Pos.eqb (Timer.handle x) h)) (timers st)) st.

(** [socketRef.current?.emit(m)] *)
Definition emit (m : Outbound) (st : Client) : Client :=
  match socketRef st with
  | Some _ => set_emitted (emitted st ++ [m]) st
  | None => st
  end.

(** [socketRef.current?.id] *)
Definition socket_id (st : Client) : option Js.str :=
  match socketRef st with
  | Some s => Socket.id s
  | None => None
  end.

Definition set_playerNameRef v (st : Client) : Client :=
  let '(mkClient a b c d e f g h i j k l m n _ p q r s t u w) := st in
  mkClient a b c d e f g h i j k l m n v p q r s t u w.

(** The effect [useEffect(() => { playerNameRef.current = playerName },
    [playerName])], run after a render in which [playerName] changed. *)
Definition sync_playerNameRef (st : Client) : Client :=
  set_playerNameRef (playerName st) st.

(** The value of [playerName] seen by the socket handlers: they are
    registered once, by the mount effect, and close over the first render. *)
Definition playerName_at_mount : Js.str := [].

(** ** Handlers of inbound messages *)

Definition on_connect (id : Js.str) (st : Client) : Client :=
  (* the transport has assigned [newSocket.id] *)
  let st := set_socketRef (Some (Socket.mk (Some id))) st in
  (* setMySocketId(newSocket.id ?? null) *)
  setMySocketId (socket_id st) st.

Definition on_playerList (players : list Player.t) (st : Client) : Client :=
  setGameState (fun prev =>
    {| GameState.players := players;
       GameState.numbers := GameState.numbers prev;
       GameState.currentTurn := GameState.currentTurn prev;
       GameState.currentPlayerName := GameState.currentPlayerName prev;
       GameState.gameStarted := GameState.gameStarted prev;
       GameState.boardSize := GameState.boardSize prev;
       GameState.status := GameState.status prev |}) st.

Definition on_gameStarted (currentTurn currentPlayerName : Js.str)
    (numbers : list Z) (st : Client) : Client :=
  setGameState (fun prev =>
    {| GameState.players := GameState.players prev;
       GameState.numbers := numbers;
       GameState.currentTurn := Some currentTurn;
       GameState.currentPlayerName := Some currentPlayerName;
       GameState.gameStarted := true;
       GameState.boardSize := GameState.boardSize prev;
       GameState.status := GameState.status prev |}) st.

Definition on_numberEliminated (number : Z) (remainingNumbers : list Z)
    (currentTurn currentPlayerName : Js.str) (st : Client) : Client :=
  setGameState (fun prev =>
    {| GameState.players := GameState.players prev;
       GameState.numbers := remainingNumbers;
       GameState.currentTurn := Some currentTurn;
       GameState.currentPlayerName := Some currentPlayerName;
       GameState.gameStarted := GameState.gameStarted prev;
       GameState.boardSize := GameState.boardSize prev;
       GameState.status := GameState.status prev |}) st.

Definition on_error (message : Js.str) (st : Client) : Client :=
  if justPickedNumber st then st (* Ignore error if just picked a number *)
  else
    let st := setError (Some message) st in
    let st := match errorTimeout st with
              | Some h => clearTimeout h st
              | None => st
              end in
    let '(h, st) := setTimeout clear_error 3000 st in
    set_errorTimeout (Some h) st.

Definition on_youWon (placement totalPlayers number : Z) (st : Client) : Client :=
  let st := setEliminationInfo
              (Some (PlayerElimination.mk playerName_at_mount number placement
                       totalPlayers)) st in
  snd (setTimeout clear_eliminationInfo 3000 st).

Definition on_youLost (placement totalPlayers number : Z) (st : Client) : Client :=
  let st := setEliminationInfo
              (Some (PlayerElimination.mk playerName_at_mount number placement
                       totalPlayers)) st in
  snd (setTimeout clear_eliminationInfo 3000 st).

Definition on_playerEliminated (info : PlayerElimination.t) (st : Client) : Client :=
  let st := setEliminationInfo (Some info) st in
  snd (setTimeout clear_eliminationInfo 3000 st).

Definition on_gameOver (info : GameOverInfo.t) (st : Client) : Client :=
  setGameOverInfo (Some info) (setGameOver true st).

Definition on_lobbyCreated (code : Js.str) (st : Client) : Client :=
  let st := setLobbyCode (Some code) st in
  let st := setLobbyStep creating st in
  (* Immediately join the lobby with the player name (latest value) *)
  if (2 <=? length (Js.trim (playerNameRef st)))%nat && bool_decide (is_Some (socketRef st))
  then
    let st := emit (joinLobby code (playerNameRef st)) st in
    setShowStartScreen false st
  else st.

Definition on_lobbyJoined (boardSize : Z) (st : Client) : Client :=
  let st := setGameState (fun prev =>
    {| GameState.players := GameState.players prev;
       GameState.numbers := Js.array_from_length boardSize (fun i => i + 1);
       GameState.currentTurn := GameState.currentTurn prev;
       GameState.currentPlayerName := GameState.currentPlayerName prev;
       GameState.gameStarted := GameState.gameStarted prev;
       GameState.boardSize := boardSize;
       GameState.status := Some (Js.of_ascii "waiting") |}) st in
  setShowStartScreen false st.

Definition on_resetNumbers (st : Client) : Client :=
  setError
    (Some (Js.of_ascii "All players have chosen the same number. Pick a new number."))
    st.

Definition on_lobbyReset (players : list Player.t) (numbers : list Z)
    (boardSize : Z) (st : Client) : Client :=
  let st := setGameOver false st in
  let st := setGameResult None st in
  let st := setGameOverInfo None st in
  let st := setGameState (fun prev =>
    {| GameState.players := players;
       GameState.numbers := numbers;
       GameState.currentTurn := None;
       GameState.currentPlayerName := None;
       GameState.gameStarted := false;
       GameState.boardSize := boardSize;
       GameState.status := GameState.status prev |}) st in
  setShowStartScreen false st.

Definition on_inbound (m : Inbound) (st : Client) : Client :=
  match m with
  | connect id => on_connect id st
  | playerList players => on_playerList players st
  | gameStarted t n ns => on_gameStarted t n ns st
  | numberEliminated k rest t n => on_numberEliminated k rest t n st
  | error_msg message => on_error message st
  | youWon p tot k => on_youWon p tot k st
  | youLost p tot k => on_youLost p tot k st
  | playerEliminated info => on_playerEliminated info st
  | gameOver_msg info => on_gameOver info st
  | lobbyCreated code => on_lobbyCreated code st
  | lobbyJoined b => on_lobbyJoined b st
  | resetNumbers => on_resetNumbers st
  | lobbyReset ps ns b => on_lobbyReset ps ns b st
  end.

(** ** Handlers of user actions *)

(** [gameState.players.find(p => p.id === mySocketId)] *)
Definition find_me (st : Client) : option Player.t :=
  List.find (fun p => Js.strict_eq (Some (Player.id p)) (mySocketId st))
    (GameState.players (gameState st)).

(** [me && me.selectedNumber === null] *)
Definition me_without_number (st : Client) : bool :=
  match find_me st with
  | Some me => bool_decide (Player.selectedNumber me = None)
  | None => false
  end.

Definition handleNumberSelect (number : Z) (st : Client) : Client :=
  if gameOver st then st (* Prevent selection after game over *)
  else
    let st := setError None st in
    let st := set_justPickedNumber true st in
    let st := snd (setTimeout clear_justPickedNumber 500 st) in
    if me_without_number st then emit (selectNumber number) st else st.

(** [socketRef.current?.id === gameState.currentTurn] *)
Definition my_turn (st : Client) : bool :=
  Js.strict_eq (socket_id st) (GameState.currentTurn (gameState st)).

Definition handleNumberElimination (number : Z) (st : Client) : Client :=
  if GameState.gameStarted (gameState st) && my_turn st
  then emit (eliminateNumber number) st
  else st.

Definition handlePlayAgain (st : Client) : Client :=
  emit playerReadyForReplay st.

Definition handleMainMenu (st : Client) : Client :=
  (* Ask backend to remove this player from the lobby *)
  let st := emit leaveLobby st in
  let st := setGameOver false st in
  let st := setGameResult None st in
  let st := setGameOverInfo None st in
  let st := setPlayerName [] st in
  let st := setGameState (fun _ => initialGameState) st in
  let st := setShowStartScreen true st in
  let st := setLobbyCode None st in
  let st := setJoinCodeInput [] st in
  let st := setLobbyStep menu st in
  sync_playerNameRef st.

(** [gameState.players.every((p) => p.selectedNumber !== null)] *)
Definition everyone_selected (st : Client) : bool :=
  forallb (fun p => negb (bool_decide (Player.selectedNumber p = None)))
    (GameState.players (gameState st)).

(** The [onClick] of the Start Game button. *)
Definition startGame_onClick (st : Client) : Client :=
  if everyone_selected st then emit startGame st else st.

(** ** The view: which screen is rendered and which controls it offers *)

Inductive Screen :=
| MenuScreen | CreateScreen | JoinScreen | CreatingScreen
| GameOverScreen | LobbyScreen | BoardScreen.

#[global] Instance Screen_eq_dec : EqDecision Screen.
Proof. solve_decision. Defined.

Definition render (st : Client) : Screen :=
  let rest :=
    if gameOver st then GameOverScreen
    else if negb (GameState.gameStarted (gameState st)) then LobbyScreen
    else BoardScreen in
  if showStartScreen st then
    match lobbyStep st with
    | menu => MenuScreen
    | create => CreateScreen
    | join => JoinScreen
    | creating => CreatingScreen
    | joining => rest
    end
  else rest.

Definition on_screen (s : Screen) (st : Client) : bool :=
  bool_decide (render st = s).

(** [gameState.players.length > 1 && gameState.players[0]?.id === mySocketId] *)
Definition am_leader (st : Client) : bool :=
  (1 <? length (GameState.players (gameState st)))%nat
  && Js.strict_eq (Player.id <$> GameState.players (gameState st) !! 0%nat)
       (mySocketId st).

(** The Start Game button is part of the lobby screen, for the leader. *)
Definition start_button_rendered (st : Client) : bool :=
  on_screen LobbyScreen st && am_leader st.

(** Its [disabled] attribute. *)
Definition start_button_disabled (st : Client) : bool :=
  negb (everyone_selected st).

(** The number pad of the lobby screen shows one button per number. *)
Definition select_button_rendered (number : Z) (st : Client) : bool :=
  on_screen LobbyScreen st && me_without_number st
  && bool_decide (number ∈ GameState.numbers (gameState st)).

(** The board shows one button per remaining number. *)
Definition board_button_rendered (number : Z) (st : Client) : bool :=
  on_screen BoardScreen st
  && bool_decide (number ∈ GameState.numbers (gameState st)).

(** [disabled={socketRef.current?.id !== gameState.currentTurn}] *)
Definition board_button_disabled (st : Client) : bool := negb (my_turn st).

(** User actions. A click reaches its handler only through a button that
    is rendered and not disabled. *)
Inductive Action :=
| click_select (number : Z)
| click_start
| click_board (number : Z)
| click_playAgain
| click_mainMenu.

Definition on_action (a : Action) (st : Client) : Client :=
  match a with
  | click_select n =>
      if select_button_rendered n st then handleNumberSelect n st else st
  | click_start =>
      if start_button_rendered st && negb (start_button_disabled st)
      then startGame_onClick st else st
  | click_board n =>
      if board_button_rendered n st && negb (board_button_disabled st)
      then handleNumberElimination n st else st
  | click_playAgain =>
      if on_screen GameOverScreen st then handlePlayAgain st else st
  | click_mainMenu =>
      if on_screen GameOverScreen st then handleMainMenu st else st
  end.

(** ** The event loop *)

Definition run_callback (cb : Callback) (st : Client) : Client :=
  match cb with
  | clear_error => setError None st
  | clear_eliminationInfo => setEliminationInfo None st
  | clear_justPickedNumber => set_justPickedNumber false st
  end.

(** Fire, in queue order, the timers due at or before [t]. No callback of
    the component touches the timer queue, so the queue is traversed once. *)
Fixpoint fire_due (t : Z) (q : list Timer.t) (st : Client) : Client :=
  match q with
  | [] => set_timers [] st
  | x :: q' =>
      if Timer.due x <=? t
      then fire_due t q'
             (run_callback (Timer.callback x)
                (set_now (Z.max (now st) (Timer.due x)) (set_timers q' st)))
      else set_timers q st
  end.

(** Let the clock reach [t]. *)
Definition advance (t : Z) (st : Client) : Client :=
  let st := fire_due t (timers st) st in
  set_now (Z.max (now st) t) st.

Inductive Event :=
| recv (m : Inbound)
| user (a : Action).

Definition handle (e : Event) (st : Client) : Client :=
  match e with
  | recv m => on_inbound m st
  | user a => on_action a st
  end.

(** One event of the loop, occurring at time [t]: timers that are due run
    first, then the event's handler. *)
Definition step (st : Client) (te : Z * Event) : Client :=
  handle (snd te) (advance (fst te) st).

Definition run (trace : list (Z * Event)) (st : Client) : Client :=
  fold_left step trace st.

(** ** The earlier revision of the component

    The other copy of the component in the repository has no [id] in its
    players and recognises the leader by display name. *)
Module Earlier.

(** [gameState.players.length > 1 &&
     gameState.players[0]?.name === playerName] *)
Definition am_leader_by_name (st : Client) : bool :=
  (1 <? length (GameState.players (gameState st)))%nat
  && Js.strict_eq (Player.name <$> GameState.players (gameState st) !! 0%nat)
       (Some (playerName st)).

End Earlier.

(** * Vocabulary of the properties *)

(** A trace made of roster pushes only, each with its arrival time. *)
Definition roster_trace (pushes : list (Z * list Player.t)) : list (Z * Event) :=
  List.map (fun p => (fst p, recv (playerList (snd p)))) pushes.

(** The turn holder recorded in the snapshot is the id of this client's
    socket. *)
Definition holds_turn (st : Client) : Prop :=
  exists me : Js.str,
    socket_id st = Some me /\ GameState.currentTurn (gameState st) = Some me.

(** The local participant, found by id, is the first of the roster. *)
Definition leader_is_me (st : Client) : Prop :=
  exists p : Player.t,
    GameState.players (gameState st) !! 0%nat = Some p
    /\ mySocketId st = Some (Player.id p)
    /\ find_me st = Some p.

(** Every participant of the roster has a number. *)
Definition all_selected (st : Client) : Prop :=
  forall p : Player.t,
    p ∈ GameState.players (gameState st) -> is_Some (Player.selectedNumber p).

(** The local participant is in the roster and has no number yet. *)
Definition unpicked (st : Client) : Prop :=
  exists me : Player.t,
    find_me st = Some me
    /\ mySocketId st = Some (Player.id me)
    /\ Player.selectedNumber me = None.

(** The local participant is in the roster with a number recorded. *)
Definition picked (st : Client) : Prop :=
  exists me : Player.t,
    find_me st = Some me /\ is_Some (Player.selectedNumber me).

(** The state changes of [handleNumberSelect] that precede its guard. *)
Definition arm_suppression (st : Client) : Client :=
  snd (setTimeout clear_justPickedNumber 500
         (set_justPickedNumber true (setError None st))).

(** Two roster entries that are the same participant up to the name. *)
Definition same_but_name (p q : Player.t) : Prop :=
  Player.id p = Player.id q
  /\ Player.selectedNumber p = Player.selectedNumber q
  /\ Player.isEliminated p = Player.isEliminated q
  /\ Player.placement p = Player.placement q.

(** Two client states whose rosters are the same up to names and that
    agree on the rest of the snapshot, on the phase, on the socket, on the
    captured identity and on what was emitted. Nothing is asked of the
    names: those of the roster, the turn holder's, the one typed locally. *)
Record differ_only_in_names (s1 s2 : Client) : Prop := {
  dn_players :
    Forall2 same_but_name (GameState.players (gameState s1))
      (GameState.players (gameState s2));
  dn_numbers : GameState.numbers (gameState s1) = GameState.numbers (gameState s2);
  dn_currentTurn :
    GameState.currentTurn (gameState s1) = GameState.currentTurn (gameState s2);
  dn_gameStarted :
    GameState.gameStarted (gameState s1) = GameState.gameStarted (gameState s2);
  dn_boardSize :
    GameState.boardSize (gameState s1) = GameState.boardSize (gameState s2);
  dn_gameOver : gameOver s1 = gameOver s2;
  dn_showStartScreen : showStartScreen s1 = showStartScreen s2;
  dn_lobbyStep : lobbyStep s1 = lobbyStep s2;
  dn_socketRef : socketRef s1 = socketRef s2;
  dn_mySocketId : mySocketId s1 = mySocketId s2;
  dn_emitted : emitted s1 = emitted s2
}.

(** The timer queue is ordered by due time. *)
Definition timers_sorted (st : Client) : Prop :=
  StronglySorted (fun x y => Timer.due x <= Timer.due y) (timers st).

(** What every reachable state satisfies: the identity captured by the
    [connect] handler is the id of the socket, and the queue is ordered. *)
Record invariant (st : Client) : Prop := {
  inv_identity : mySocketId st = socket_id st;
  inv_timers : timers_sorted st
}.

(** ** Sample sessions

    Two sockets, [sA] (this client) and [sB]; both participants typed the
    same display name. *)

Definition sA : Js.str := Js.of_ascii "sock-A".
Definition sB : Js.str := Js.of_ascii "sock-B".
Definition Al : Js.str := Js.of_ascii "Al".

Definition one_to_ten : list Z := [1; 2; 3; 4; 5; 6; 7; 8; 9; 10].

(** In the lobby of a 10-number board, nobody has picked yet. *)
Definition lobby_unpicked : Client :=
  run [(0, recv (connect sA));
       (40, recv (lobbyJoined 10));
       (50, recv (playerList [Player.mk Al None false None sA;
                              Player.mk Al None false None sB]))] init.

(** In the same lobby, the roster shows a number for everybody. *)
Definition lobby_picked : Client :=
  step lobby_unpicked
    (900, recv (playerList [Player.mk Al (Some 3) false None sA;
                            Player.mk Al (Some 8) false None sB])).

(** The lobby with two different names in place of the shared one. *)
Definition lobby_renamed : Client :=
  setPlayerName (Js.of_ascii "Bo")
    (on_playerList [Player.mk (Js.of_ascii "Bo") None false None sA;
                    Player.mk (Js.of_ascii "Cy") None false None sB]
       lobby_unpicked).

(** The same lobby seen by the client of the second participant. *)
Definition second_client : Client :=
  setPlayerName Al (on_connect sB lobby_unpicked).

(** A started round. *)
Definition board : Client :=
  step lobby_picked (1000, recv (gameStarted sA Al one_to_ten)).

Definition already_chosen : Js.str := Js.of_ascii "Number already chosen".

(** Two selections 450 ms apart, with no roster push in between. *)
Definition double_pick : Client :=
  run [(1000, user (click_select 3)); (1450, user (click_select 7))]
    lobby_unpicked.

Definition banner_first : PlayerElimination.t :=
  PlayerElimination.mk (Js.of_ascii "Cy") 3 1 3.

Definition banner_second : PlayerElimination.t :=
  PlayerElimination.mk (Js.of_ascii "Bo") 8 2 3.

(** Two eliminations announced 2000 ms apart. *)
Definition two_banners : Client :=
  run [(2000, recv (playerEliminated banner_first));
       (4000, recv (playerEliminated banner_second))] board.

(** Two errors reported 2000 ms apart. *)
Definition two_errors : Client :=
  run [(2000, recv (error_msg already_chosen));
       (4000, recv (error_msg already_chosen))] board.

(** * The rest of the component *)

(** ** The forms of the start screen *)

Definition setBoardSize v (st : Client) : Client :=
  let '(mkClient a _ c d e f g h i j k l m n o p q r s t u w) := st in
  mkClient a v c d e f g h i j k l m n o p q r s t u w.

Definition setShowInfo v (st : Client) : Client :=
  let '(mkClient a b c d e f g h i _ k l m n o p q r s t u w) := st in
  mkClient a b c d e f g h i v k l m n o p q r s t u w.

(** [if (error)]: [null] and the empty string are falsy. *)
Definition error_truthy (st : Client) : bool :=
  match error st with
  | Some (_ :: _) => true
  | _ => false
  end.

(** The [onChange] of the name field (the same on both forms), followed by
    the effect that copies the new name into [playerNameRef]. *)
Definition name_onChange (value : Js.str) (st : Client) : Client :=
  let st' := setPlayerName value st in
  (* Clear error when user starts typing *)
  let st' := if error_truthy st then setError None st' else st' in
  sync_playerNameRef st'.

(** The [onChange] of the code field. [upper] is
    [e.target.value.toUpperCase()]: the upper-casing of the browser is not
    modelled, the handler is given its result. *)
Definition code_onChange (upper : Js.str) (st : Client) : Client :=
  let st' := setJoinCodeInput upper st in
  if error_truthy st then setError None st' else st'.

(** The values of the [<option>]s of the board size selector. *)
Definition boardSize_options : list Z := [10; 20; 30; 40; 50; 60; 70; 80; 90; 100].

Definition name_too_short : Js.str :=
  Js.of_ascii "Name must be at least 2 characters long".
Definition code_wrong_length : Js.str :=
  Js.of_ascii "Lobby code must be 5 characters".
Definition code_not_alphanumeric : Js.str :=
  Js.of_ascii "Lobby code must contain only letters and numbers".

(** The [onClick] of Create Lobby. *)
Definition createLobby_onClick (st : Client) : Client :=
  if (length (Js.trim (playerName st)) <? 2)%nat
  then setError (Some name_too_short) st
  else setLobbyStep creating (emit (createLobby (boardSize st)) st).

(** A code unit in [A-Z0-9]. *)
Definition is_upper_alnum (c : Js.code_unit) : bool :=
  ((65 <=? c) && (c <=? 90) || (48 <=? c) && (c <=? 57))%N.

(** [/^[A-Z0-9]{5}$/.test(s)] *)
Definition is_lobby_code (s : Js.str) : bool :=
  (length s =? 5)%nat && forallb is_upper_alnum s.

(** The [onClick] of Join Lobby. *)
Definition joinLobby_onClick (st : Client) : Client :=
  if (length (Js.trim (playerName st)) <? 2)%nat
  then setError (Some name_too_short) st
  else if negb (length (Js.trim (joinCodeInput st)) =? 5)%nat
  then setError (Some code_wrong_length) st
  else if negb (is_lobby_code (Js.trim (joinCodeInput st)))
  then setError (Some code_not_alphanumeric) st
  else
    let st := setError None st in
    let st := setLobbyCode (Some (Js.trim (joinCodeInput st))) st in
    emit (joinLobby (Js.trim (joinCodeInput st)) (playerName st)) st.

(** The [onClick] of both Back links. *)
Definition back_onClick (st : Client) : Client :=
  setLobbyStep menu (setError None st).

(** What the user can do on the start screens. Each control exists on the
    screen that renders it only. *)
Inductive FormAction :=
| click_create_game
| click_join_game
| click_info
| click_close_info
| type_name (value : Js.str)
| choose_boardSize (value : Z)
| type_code (upper : Js.str)
| click_create_lobby
| click_join_lobby
| click_back.

Definition on_form (a : FormAction) (st : Client) : Client :=
  match a with
  | click_create_game =>
      if on_screen MenuScreen st then setLobbyStep create st else st
  | click_join_game =>
      if on_screen MenuScreen st then setLobbyStep join st else st
  | click_info =>
      if on_screen MenuScreen st then setShowInfo true st else st
  | click_close_info =>
      if on_screen MenuScreen st && showInfo st then setShowInfo false st else st
  | type_name value =>
      if on_screen CreateScreen st || on_screen JoinScreen st
      then name_onChange value st else st
  | choose_boardSize value =>
      if on_screen CreateScreen st && bool_decide (value ∈ boardSize_options)
      then setBoardSize value st else st
  | type_code upper =>
      if on_screen JoinScreen st then code_onChange upper st else st
  | click_create_lobby =>
      if on_screen CreateScreen st then createLobby_onClick st else st
  | click_join_lobby =>
      if on_screen JoinScreen st then joinLobby_onClick st else st
  | click_back =>
      if on_screen CreateScreen st || on_screen JoinScreen st
      then back_onClick st else st
  end.

(** ** The whole loop: server messages, game controls and forms *)

Inductive Input :=
| game (e : Event)
| form (a : FormAction).

Definition step_input (st : Client) (ti : Z * Input) : Client :=
  match snd ti with
  | game e => step st (fst ti, e)
  | form a => on_form a (advance (fst ti) st)
  end.

Definition run_inputs (trace : list (Z * Input)) (st : Client) : Client :=
  fold_left step_input trace st.

(** ** Texts and styles of the screens *)

(** The template [`${n}`] of an integer that a number holds exactly
    (between -2^53 and 2^53): its decimal digits, after a minus sign if it
    is negative. Larger values are not all numbers, and print in exponent
    form from 10^21 on; this function does not describe them. *)
Definition number_to_string (n : Z) : Js.str :=
  Js.of_ascii (DecimalString.NilZero.string_of_int (Z.to_int n)).

Definition getPlacementText (placement : Z) : Js.str :=
  if placement =? 1 then Js.of_ascii "1st"
  else if placement =? 2 then Js.of_ascii "2nd"
  else if placement =? 3 then Js.of_ascii "3rd"
  else number_to_string placement ++ Js.of_ascii "th".

(** The headline of the game-over screen. *)
Inductive Headline :=
| headline_congratulations (place : Js.str)  (* Congratulations! You got ... place! *)
| headline_last_place                        (* Game Over! You got last place! *)
| headline_game_over                         (* Game Over! *)
| headline_none.

(** [gameOverInfo?.placements.find((p) => p.name === playerName)?.placement
     || 0] *)
Definition my_placement_by_name (st : Client) : Z :=
  match gameOverInfo st with
  | Some info =>
      match List.find (fun p => Js.eqb (Placement.name p) (playerName st))
              (GameOverInfo.placements info) with
      | Some p => Placement.placement p
      | None => 0
      end
  | None => 0
  end.

Definition gameOver_headline (st : Client) : Headline :=
  match gameResult st with
  | Some won => headline_congratulations (getPlacementText (my_placement_by_name st))
  | Some lost => headline_last_place
  | None =>
      match gameOverInfo st with
      | Some _ => headline_game_over
      | None => headline_none
      end
  end.

(** [Array.prototype.find] with a callback that also takes the index;
    [i] is the index of the head of [l]. *)
Fixpoint find_from {A} (f : A -> nat -> bool) (l : list A) (i : nat) : option A :=
  match l with
  | [] => None
  | x :: l' => if f x i then Some x else find_from f l' (S i)
  end.

(** The three looks of a row of the Players panel of the board. *)
Inductive RowStyle := row_eliminated | row_current_turn | row_plain.

(** The class expression of a row of the Players panel. *)
Definition row_style (st : Client) (player : Player.t) : RowStyle :=
  let players := GameState.players (gameState st) in
  if Player.isEliminated player then row_eliminated
  else if my_turn st && Js.eqb (Player.name player) (playerName st)
  then row_current_turn
  else if Js.strict_eq
            (Player.name <$>
               find_from
                 (fun p i =>
                    Js.strict_eq (Player.name <$> players !! i)
                      (Some (Player.name p))
                    && my_turn st)
                 players 0%nat)
            (Some (Player.name player))
  then row_current_turn
  else row_plain.

(** ** Vocabulary of the further properties *)

(** A message the forms may send: a board size that is on offer, a name of
    two characters at least once trimmed. *)
Definition well_formed (m : Outbound) : Prop :=
  match m with
  | createLobby b => b ∈ boardSize_options
  | joinLobby _ name => (2 <= length (Js.trim name))%nat
  | _ => True
  end.

(** The part of the state that no timer callback and no clock tick
    touches. *)
Definition untimed (st : Client) :=
  (playerName st, boardSize st, gameState st, gameOver st, gameResult st,
   gameOverInfo st, showStartScreen st, showInfo st, lobbyCode st,
   joinCodeInput st, lobbyStep st, socketRef st, playerNameRef st,
   mySocketId st, errorTimeout st, nextTimer st, emitted st).

(** The part of the state the timers live in. *)
Definition timed (st : Client) :=
  (now st, timers st, nextTimer st, errorTimeout st, justPickedNumber st,
   eliminationInfo st).

(** What the timer queue of a state looks like: every pending timer is due
    in the future and has a handle already handed out, and it clears the
    error exactly if it is the one remembered in [errorTimeout]. *)
Definition timer_ok (st : Client) (x : Timer.t) : Prop :=
  now st < Timer.due x
  /\ (Timer.handle x < nextTimer st)%positive
  /\ (Timer.callback x = clear_error <-> errorTimeout st = Some (Timer.handle x)).

Record timers_ok (st : Client) : Prop := {
  tk_sorted : timers_sorted st;
  tk_each : Forall (timer_ok st) (timers st);
  tk_handles : NoDup (Timer.handle <$> timers st);
  tk_remembered :
    forall h, errorTimeout st = Some h -> (h < nextTimer st)%positive;
  tk_flag :
    justPickedNumber st = true ->
    Exists (fun x => Timer.callback x = clear_justPickedNumber
                     /\ Timer.due x <= now st + 500) (timers st);
  tk_banner :
    is_Some (eliminationInfo st) ->
    Exists (fun x => Timer.callback x = clear_eliminationInfo
                     /\ Timer.due x <= now st + 3000) (timers st)
}.

(** What does not depend on timers. *)
Record session_ok (st : Client) : Prop := {
  sk_identity : mySocketId st = socket_id st;
  sk_socket : is_Some (socketRef st);
  sk_result : gameResult st = None;
  sk_ref : playerNameRef st = playerName st;
  sk_boardSize : boardSize st ∈ boardSize_options;
  sk_emitted : Forall well_formed (emitted st)
}.

(** The input makes a button of the number pad call
    [handleNumberSelect]: it is a click on a button that is rendered when
    the click occurs. *)
Definition calls_handleNumberSelect (st : Client) (ti : Z * Input) : bool :=
  match snd ti with
  | game (user (click_select n)) =>
      select_button_rendered n (advance (fst ti) st)
  | _ => false
  end.

(** Run from [st], no input of the trace makes that call. *)
Fixpoint no_selection (trace : list (Z * Input)) (st : Client) : Prop :=
  match trace with
  | [] => True
  | ti :: rest =>
      calls_handleNumberSelect st ti = false
      /\ no_selection rest (step_input st ti)
  end.

(** If the suppression flag is up, a timer due at [bound] at the latest
    will lower it. *)
Definition suppression_ends_by (bound : Z) (st : Client) : Prop :=
  justPickedNumber st = true ->
  Exists (fun x => Timer.callback x = clear_justPickedNumber
                   /\ Timer.due x <= bound) (timers st).

(** Going from [st] to [st'] has not raised the flag nor removed a timer
    that lowers it. *)
Definition flag_not_raised (st st' : Client) : Prop :=
  justPickedNumber st' = true ->
  justPickedNumber st = true
  /\ forall x, x ∈ timers st ->
               Timer.callback x = clear_justPickedNumber -> x ∈ timers st'.

(** The states the client can be in. *)
Definition reachable (st : Client) : Prop :=
  exists trace : list (Z * Input), st = run_inputs trace init.

(** * Properties *)

(** ** Basic facts about the environment *)

Ltac unfold_setters :=
  unfold setPlayerName, setGameState, setError, setGameOver, setGameResult,
    setGameOverInfo, setEliminationInfo, setShowStartScreen, setLobbyCode,
    setJoinCodeInput, setLobbyStep, set_socketRef, setMySocketId,
    set_errorTimeout, set_justPickedNumber, set_now, set_timers,
    set_nextTimer, set_emitted, set_playerNameRef, sync_playerNameRef in *.

(** Destruct a client state and reduce every setter applied to it. *)
Ltac open_state st := destruct st; unfold_setters; simpl in *.

Lemma run_callback_gameState cb st :
  gameState (run_callback cb st) = gameState st.
Proof. destruct cb; open_state st; reflexivity. Qed.

Lemma run_callback_emitted cb st :
  emitted (run_callback cb st) = emitted st.
Proof. destruct cb; open_state st; reflexivity. Qed.

Lemma fire_due_gameState t q st :
  gameState (fire_due t q st) = gameState st.
Proof.
  revert st; induction q as [|x q IH]; intros st; simpl.
  - open_state st; reflexivity.
  - destruct (Timer.due x <=? t).
    + rewrite IH, run_callback_gameState. open_state st; reflexivity.
    + open_state st; reflexivity.
Qed.

Lemma advance_gameState t st : gameState (advance t st) = gameState st.
Proof.
  unfold advance. rewrite <- (fire_due_gameState t (timers st) st).
  generalize (fire_due t (timers st) st); intros s. open_state s; reflexivity.
Qed.

Lemma fire_due_emitted t q st : emitted (fire_due t q st) = emitted st.
Proof.
  revert st; induction q as [|x q IH]; intros st; simpl.
  - open_state st; reflexivity.
  - destruct (Timer.due x <=? t).
    + rewrite IH, run_callback_emitted. open_state st; reflexivity.
    + open_state st; reflexivity.
Qed.

Lemma advance_emitted t st : emitted (advance t st) = emitted st.
Proof.
  unfold advance. rewrite <- (fire_due_emitted t (timers st) st).
  generalize (fire_due t (timers st) st); intros s. open_state s; reflexivity.
Qed.

(** ** Roster updates *)

Lemma on_playerList_gameState ps st :
  gameState (on_playerList ps st) =
  {| GameState.players := ps;
     GameState.numbers := GameState.numbers (gameState st);
     GameState.currentTurn := GameState.currentTurn (gameState st);
     GameState.currentPlayerName := GameState.currentPlayerName (gameState st);
     GameState.gameStarted := GameState.gameStarted (gameState st);
     GameState.boardSize := GameState.boardSize (gameState st);
     GameState.status := GameState.status (gameState st) |}.
Proof. unfold on_playerList. open_state st. reflexivity. Qed.

Lemma roster_trace_frame pushes st :
  let g := gameState st in
  let g' := gameState (run (roster_trace pushes) st) in
  GameState.numbers g' = GameState.numbers g
  /\ GameState.currentTurn g' = GameState.currentTurn g
  /\ GameState.currentPlayerName g' = GameState.currentPlayerName g
  /\ GameState.gameStarted g' = GameState.gameStarted g
  /\ GameState.boardSize g' = GameState.boardSize g
  /\ GameState.status g' = GameState.status g.
Proof.
  revert st; induction pushes as [|[t ps] l IH]; intros st; simpl.
  - repeat split.
  - specialize (IH (step st (t, recv (playerList ps)))).
    unfold step in IH |- *; simpl in IH |- *.
    rewrite on_playerList_gameState in IH; simpl in IH.
    rewrite advance_gameState in IH. exact IH.
Qed.

(** C4. Whatever roster pushes were applied before, and whatever timers ran
    in between, after the push carrying [payload] the snapshot's players
    are exactly [payload], and numbers, currentTurn, currentPlayerName,
    gameStarted and boardSize are those of the starting snapshot. *)
Theorem playerList_replaces_roster_wholesale :
  forall (st : Client) (before : list (Z * list Player.t)) (t : Z)
         (payload : list Player.t),
    let g := gameState st in
    let g' := gameState (run (roster_trace (before ++ [(t, payload)])) st) in
    GameState.players g' = payload
    /\ GameState.numbers g' = GameState.numbers g
    /\ GameState.currentTurn g' = GameState.currentTurn g
    /\ GameState.currentPlayerName g' = GameState.currentPlayerName g
    /\ GameState.gameStarted g' = GameState.gameStarted g
    /\ GameState.boardSize g' = GameState.boardSize g.
Proof.
  intros st before t payload g g'.
  split.
  - subst g'. unfold roster_trace, run.
    rewrite map_app, fold_left_app; simpl.
    unfold step; simpl. rewrite on_playerList_gameState; reflexivity.
  - destruct (roster_trace_frame (before ++ [(t, payload)]) st)
      as (Hn & Ht & Hc & Hs & Hb & _).
    subst g g'. repeat split; assumption.
Qed.

(** ** Joining a lobby *)

Lemma array_from_length_succ (n : Z) :
  Js.array_from_length n (fun i => i + 1) = Z.of_nat <$> seq 1 (Z.to_nat n).
Proof.
  unfold Js.array_from_length.
  rewrite <- (fmap_S_seq 0), <- list_fmap_compose.
  apply list_fmap_ext; intros _ i _; simpl. lia.
Qed.

(** C8. On [lobbyJoined] with board size [b], a length [Array.from]
    accepts, the snapshot's boardSize is [b] and its numbers are the list
    1, 2, ..., b, in this order: every integer between 1 and [b] once, and
    nothing else. *)
Theorem lobbyJoined_sets_boardSize_and_full_range :
  forall (st : Client) (b : Z),
    b < 2 ^ 32 ->
    let g' := gameState (on_inbound (lobbyJoined b) st) in
    GameState.boardSize g' = b
    /\ GameState.numbers g' = Z.of_nat <$> seq 1 (Z.to_nat b)
    /\ (forall k : Z, k ∈ GameState.numbers g' <-> 1 <= k <= b)
    /\ NoDup (GameState.numbers g').
Proof.
  intros st b _ g'.
  assert (Hn : GameState.numbers g' = Z.of_nat <$> seq 1 (Z.to_nat b)).
  { subst g'. simpl. unfold on_lobbyJoined.
    rewrite <- array_from_length_succ. open_state st. reflexivity. }
  split; [subst g'; simpl; unfold on_lobbyJoined; open_state st; reflexivity|].
  split; [exact Hn|]. rewrite Hn. split.
  - intros k. rewrite list_elem_of_fmap. split.
    + intros (i & -> & Hi). apply elem_of_seq in Hi. lia.
    + intros Hk. exists (Z.to_nat k). split; [lia|]. apply elem_of_seq. lia.
  - apply NoDup_fmap; [intros x y; lia | apply NoDup_seq].
Qed.

Lemma lobbyJoined_sets_boardSize_and_full_range_witness :
  10 < 2 ^ 32
  /\ GameState.boardSize (gameState (on_inbound (lobbyJoined 10) init)) = 10
  /\ GameState.numbers (gameState (on_inbound (lobbyJoined 10) init))
     = [1; 2; 3; 4; 5; 6; 7; 8; 9; 10].
Proof.
  assert (Hb : 10 < 2 ^ 32) by lia.
  split; [exact Hb|].
  pose proof (lobbyJoined_sets_boardSize_and_full_range init 10 Hb)
    as (Hsize & Hnumbers & _).
  split; [exact Hsize | exact Hnumbers].
Defined.

(** ** Creating a lobby *)

Example trim_inner_blank_kept :
  Js.trim (Js.of_ascii "  Al B ") = Js.of_ascii "Al B".
Proof. reflexivity. Qed.

Example trim_blank_name_too_short :
  length (Js.trim (9 :: 160 :: Js.of_ascii " A ")%N) = 1%nat.
Proof. reflexivity. Qed.

(** C10. On [lobbyCreated] the code is recorded and the step becomes
    [creating] in every case. A [joinLobby] with the received code and the
    stored name is emitted only if the trimmed stored name has at least two
    characters (and it is emitted then, the socket being there); otherwise
    nothing is emitted and [showStartScreen] keeps its value, so that a
    client on the start screen stays there, on the screen of the
    [creating] step. *)
Theorem lobbyCreated_joins_only_with_valid_name :
  forall (st : Client) (code : Js.str),
    let st' := on_inbound (lobbyCreated code) st in
    let name_ok := (2 <=? length (Js.trim (playerNameRef st)))%nat in
    lobbyCode st' = Some code
    /\ lobbyStep st' = creating
    /\ (if name_ok && bool_decide (is_Some (socketRef st))
        then emitted st' = emitted st ++ [joinLobby code (playerNameRef st)]
             /\ showStartScreen st' = false
        else emitted st' = emitted st
             /\ showStartScreen st' = showStartScreen st)
    /\ (emitted st' <> emitted st -> name_ok = true)
    /\ (name_ok = false -> showStartScreen st = true ->
        render st' = CreatingScreen).
Proof.
  intros st code st' name_ok.
  assert (Hcases :
    lobbyCode st' = Some code /\ lobbyStep st' = creating
    /\ (if name_ok && bool_decide (is_Some (socketRef st))
        then emitted st' = emitted st ++ [joinLobby code (playerNameRef st)]
             /\ showStartScreen st' = false
        else emitted st' = emitted st
             /\ showStartScreen st' = showStartScreen st)).
  { subst st' name_ok. simpl. unfold on_lobbyCreated, emit.
    destruct st as [? ? ? ? ? ? ? ? ? ? ? ? ? sr pnr ? ? ? ? ? ? ?].
    unfold_setters; simpl.
    destruct (length (Js.trim pnr)) as [|[|k]]; simpl; auto.
    destruct sr as [s|]; simpl; auto. }
  destruct Hcases as (Hc & Hs & Hif).
  split; [exact Hc|]. split; [exact Hs|]. split; [exact Hif|]. split.
  - intros Hne. destruct name_ok; [reflexivity|].
    simpl in Hif. destruct Hif as [He _]. contradiction.
  - intros Hno Hshow. rewrite Hno in Hif. simpl in Hif.
    destruct Hif as [_ Hsame]. unfold render.
    rewrite Hsame, Hshow, Hs. reflexivity.
Qed.

(** ** Eliminating a number *)

Lemma strict_eq_spec (a b : option Js.str) :
  Js.strict_eq a b = true <-> exists x, a = Some x /\ b = Some x.
Proof.
  unfold Js.strict_eq, Js.eqb. destruct a as [x|], b as [y|]; simpl.
  - rewrite bool_decide_eq_true. split.
    + intros ->. eauto.
    + intros (z & [= ->] & [= ->]). reflexivity.
  - split; [discriminate | intros (z & _ & [=])].
  - split; [discriminate | intros (z & [=] & _)].
  - split; [discriminate | intros (z & [=] & _)].
Qed.

Lemma my_turn_spec st : my_turn st = true <-> holds_turn st.
Proof. unfold my_turn, holds_turn. apply strict_eq_spec. Qed.

Lemma emit_emitted m st :
  emitted (emit m st) = emitted st ++ [m] \/ emit m st = st.
Proof.
  unfold emit. destruct (socketRef st) eqn:E; [left | right; reflexivity].
  open_state st. reflexivity.
Qed.

Lemma emit_with_socket m st :
  is_Some (socketRef st) -> emitted (emit m st) = emitted st ++ [m].
Proof.
  intros [s Hs]. unfold emit. rewrite Hs. open_state st. reflexivity.
Qed.

Lemma app_singleton_neq {A} (l : list A) (x : A) : l ++ [x] <> l.
Proof.
  intros H. apply (f_equal (@length A)) in H.
  rewrite length_app in H. simpl in H. lia.
Qed.

Lemma socket_id_is_Some st : is_Some (socket_id st) -> is_Some (socketRef st).
Proof. unfold socket_id. destruct (socketRef st); [eauto | intros [? [=]]]. Qed.

(** C6. [handleNumberElimination] emits [eliminateNumber] exactly when the
    round has started and the id of the local socket is the turn holder of
    the snapshot; in every other state it leaves the whole client state,
    and so the outbound channel, as it was. *)
Theorem eliminateNumber_iff_started_and_my_turn :
  forall (st : Client) (number : Z),
    let st' := handleNumberElimination number st in
    (emitted st' = emitted st ++ [eliminateNumber number]
     <-> GameState.gameStarted (gameState st) = true /\ holds_turn st)
    /\ (~ (GameState.gameStarted (gameState st) = true /\ holds_turn st)
        -> st' = st).
Proof.
  intros st number st'. subst st'. unfold handleNumberElimination.
  destruct (GameState.gameStarted (gameState st)) eqn:Hs; simpl.
  - destruct (my_turn st) eqn:Ht.
    + apply my_turn_spec in Ht as Hh. split.
      * split; [intros _; auto|intros _].
        apply emit_with_socket, socket_id_is_Some.
        destruct Hh as (me & -> & _). eauto.
      * intros Hn. exfalso. apply Hn. auto.
    + split; [|reflexivity]. split.
      * intros H. symmetry in H. exfalso. eapply app_singleton_neq, H.
      * intros [_ Hh]. apply my_turn_spec in Hh. congruence.
  - split; [|reflexivity]. split.
    + intros H. symmetry in H. exfalso. eapply app_singleton_neq, H.
    + intros [[=] _].
Qed.

(** ** Starting the round *)

Lemma am_leader_spec st : am_leader st = true -> leader_is_me st.
Proof.
  unfold am_leader, leader_is_me, find_me.
  intros [_ H]%andb_true_iff. apply strict_eq_spec in H as (x & Hx & Hm).
  destruct (GameState.players (gameState st)) as [|p ps]; [discriminate|].
  simpl in Hx. injection Hx as <-. exists p. repeat split; [exact Hm|].
  simpl. rewrite Hm. unfold Js.strict_eq, Js.eqb.
  rewrite bool_decide_eq_true_2 by reflexivity. reflexivity.
Qed.

Lemma leader_is_me_am_leader st :
  leader_is_me st ->
  (1 < length (GameState.players (gameState st)))%nat ->
  am_leader st = true.
Proof.
  intros (p & Hp & Hm & _) Hlen. unfold am_leader.
  apply andb_true_iff; split; [apply Nat.ltb_lt; exact Hlen|].
  rewrite Hp. apply strict_eq_spec. simpl. eauto.
Qed.

Lemma everyone_selected_spec st : everyone_selected st = true <-> all_selected st.
Proof.
  unfold everyone_selected, all_selected. rewrite forallb_forall.
  split; intros H p Hp.
  - apply list_elem_of_In, H in Hp.
    destruct (Player.selectedNumber p); [eauto|].
    rewrite bool_decide_eq_true_2 in Hp by reflexivity. discriminate.
  - apply list_elem_of_In, H in Hp as [k Hk]. rewrite Hk.
    rewrite bool_decide_eq_false_2 by discriminate. reflexivity.
Qed.

(** C7. A click on Start Game either emits [startGame], and then the local
    participant is the first of the roster and every participant has a
    selected number, or changes nothing at all; and a client that is not
    the leader is not shown the button. *)
Theorem startGame_only_leader_with_all_selected :
  forall st : Client,
    let st' := on_action click_start st in
    (emitted st' = emitted st ++ [startGame]
     /\ leader_is_me st /\ all_selected st
     \/ st' = st)
    /\ (emitted st' <> emitted st -> leader_is_me st /\ all_selected st)
    /\ (~ leader_is_me st -> start_button_rendered st = false).
Proof.
  intros st st'.
  assert (Hmain :
    emitted st' = emitted st ++ [startGame]
    /\ leader_is_me st /\ all_selected st \/ st' = st).
  { subst st'. simpl. unfold start_button_rendered, start_button_disabled,
      startGame_onClick.
    destruct (on_screen LobbyScreen st); simpl; [|auto].
    destruct (am_leader st) eqn:Hl; simpl; [|auto].
    destruct (everyone_selected st) eqn:He; simpl; [|auto].
    apply am_leader_spec in Hl. apply everyone_selected_spec in He.
    destruct (emit_emitted startGame st) as [H|H]; [left|right]; auto. }
  split; [exact Hmain|]. split.
  - intros Hne. destruct Hmain as [(_ & Hl & Ha)|Heq]; [auto|].
    rewrite Heq in Hne. contradiction.
  - intros Hn. unfold start_button_rendered.
    destruct (am_leader st) eqn:Hl; [|apply andb_false_r].
    apply am_leader_spec in Hl. contradiction.
Qed.

(** ** Selecting a number *)

Lemma find_me_id st me :
  find_me st = Some me -> mySocketId st = Some (Player.id me).
Proof.
  unfold find_me. intros H. apply find_some in H as [_ H].
  apply strict_eq_spec in H as (x & [= ->] & ->). reflexivity.
Qed.

Lemma me_without_number_spec st : me_without_number st = true <-> unpicked st.
Proof.
  unfold me_without_number, unpicked.
  destruct (find_me st) as [me|] eqn:E.
  - rewrite bool_decide_eq_true. split.
    + intros H. exists me. auto using find_me_id.
    + intros (me' & [= <-] & _ & H). exact H.
  - split; [discriminate | intros (me' & [=] & _)].
Qed.

Lemma picked_not_unpicked st : picked st -> me_without_number st = false.
Proof.
  intros (me & Hf & [k Hk]). unfold me_without_number. rewrite Hf, Hk.
  apply bool_decide_eq_false_2. discriminate.
Qed.

Lemma handleNumberSelect_unfold number st :
  handleNumberSelect number st =
  if gameOver st then st
  else if me_without_number st
       then emit (selectNumber number) (arm_suppression st)
       else arm_suppression st.
Proof.
  unfold handleNumberSelect, arm_suppression.
  destruct (gameOver st); [reflexivity|].
  replace (me_without_number
             (snd (setTimeout clear_justPickedNumber 500
                     (set_justPickedNumber true (setError None st)))))
    with (me_without_number st); [reflexivity|].
  unfold me_without_number, find_me, setTimeout. open_state st. reflexivity.
Qed.

Lemma elem_of_enqueue tm q : tm ∈ enqueue tm q.
Proof.
  induction q as [|x q IH]; simpl; [apply list_elem_of_here|].
  destruct (Timer.due x <=? Timer.due tm);
    [apply list_elem_of_further, IH | apply list_elem_of_here].
Qed.

Lemma emit_frame m st :
  error (emit m st) = error st
  /\ justPickedNumber (emit m st) = justPickedNumber st
  /\ timers (emit m st) = timers st
  /\ gameState (emit m st) = gameState st
  /\ mySocketId (emit m st) = mySocketId st
  /\ gameOver (emit m st) = gameOver st.
Proof.
  unfold emit. destruct (socketRef st); [|repeat split].
  open_state st. repeat split.
Qed.

Lemma arm_suppression_effects st :
  error (arm_suppression st) = None
  /\ justPickedNumber (arm_suppression st) = true
  /\ Timer.mk (nextTimer st) (now st + 500) clear_justPickedNumber
       ∈ timers (arm_suppression st)
  /\ emitted (arm_suppression st) = emitted st.
Proof.
  unfold arm_suppression, setTimeout. open_state st.
  repeat split. apply elem_of_enqueue.
Qed.

Lemma handleNumberSelect_shape number st :
  gameOver st = false ->
  handleNumberSelect number st = emit (selectNumber number) (arm_suppression st)
  \/ handleNumberSelect number st = arm_suppression st.
Proof.
  intros Hgo. rewrite handleNumberSelect_unfold, Hgo.
  destruct (me_without_number st); auto.
Qed.

Lemma handleNumberSelect_flag_up number st :
  gameOver st = false -> justPickedNumber (handleNumberSelect number st) = true.
Proof.
  intros Hgo. destruct (arm_suppression_effects st) as (_ & Hj & _).
  destruct (handleNumberSelect_shape number st Hgo) as [-> | ->]; [|exact Hj].
  destruct (emit_frame (selectNumber number) (arm_suppression st))
    as (_ & -> & _). exact Hj.
Qed.

(** C9. Whenever the game is not over, [handleNumberSelect] leaves no error
    displayed, raises the suppression flag and schedules its clearing 500 ms
    later; all this is done by [arm_suppression], which runs before the
    guard and does not depend on it, so it also happens when nothing is
    emitted because the local participant has a number already or is not
    in the roster. *)
Theorem handleNumberSelect_always_clears_error_and_arms :
  forall (st : Client) (number : Z),
    gameOver st = false ->
    let st' := handleNumberSelect number st in
    error st' = None
    /\ justPickedNumber st' = true
    /\ Timer.mk (nextTimer st) (now st + 500) clear_justPickedNumber ∈ timers st'
    /\ (st' = emit (selectNumber number) (arm_suppression st)
        \/ st' = arm_suppression st)
    /\ (picked st \/ find_me st = None ->
        emitted st' = emitted st /\ st' = arm_suppression st).
Proof.
  intros st number Hgo st'. subst st'.
  rewrite handleNumberSelect_unfold, Hgo.
  destruct (arm_suppression_effects st) as (He & Hj & Ht & Hm).
  destruct (me_without_number st) eqn:Hg.
  - destruct (emit_frame (selectNumber number) (arm_suppression st))
      as (-> & -> & -> & _).
    split; [exact He|]. split; [exact Hj|]. split; [exact Ht|].
    split; [left; reflexivity|].
    intros [Hp | Hn].
    + apply picked_not_unpicked in Hp. congruence.
    + unfold me_without_number in Hg. rewrite Hn in Hg. discriminate.
  - split; [exact He|]. split; [exact Hj|]. split; [exact Ht|].
    split; [right; reflexivity|]. intros _. split; [exact Hm|reflexivity].
Qed.

Lemma handleNumberSelect_always_clears_error_and_arms_witness :
  gameOver lobby_picked = false
  /\ error (handleNumberSelect 5 lobby_picked) = None
  /\ justPickedNumber (handleNumberSelect 5 lobby_picked) = true.
Proof.
  split; [reflexivity|].
  pose proof (handleNumberSelect_always_clears_error_and_arms lobby_picked 5
                eq_refl) as (He & Hj & _).
  split; [exact He | exact Hj].
Defined.

Lemma handleNumberSelect_find_me number st :
  find_me (handleNumberSelect number st) = find_me st.
Proof.
  rewrite handleNumberSelect_unfold.
  destruct (gameOver st); [reflexivity|].
  assert (Ha : find_me (arm_suppression st) = find_me st).
  { unfold find_me, arm_suppression, setTimeout. open_state st. reflexivity. }
  destruct (me_without_number st); [|exact Ha].
  rewrite <- Ha. unfold find_me.
  destruct (emit_frame (selectNumber number) (arm_suppression st))
    as (_ & _ & _ & -> & -> & _). reflexivity.
Qed.

Lemma handleNumberSelect_emitted number st :
  emitted (handleNumberSelect number st) = emitted st ++ [selectNumber number]
  /\ gameOver st = false /\ unpicked st
  \/ emitted (handleNumberSelect number st) = emitted st.
Proof.
  rewrite handleNumberSelect_unfold.
  destruct (gameOver st) eqn:Hgo; [right; reflexivity|].
  assert (Hm : emitted (arm_suppression st) = emitted st).
  { unfold arm_suppression, setTimeout. open_state st. reflexivity. }
  destruct (me_without_number st) eqn:Hg; [|right; exact Hm].
  apply me_without_number_spec in Hg.
  destruct (emit_emitted (selectNumber number) (arm_suppression st)) as [H|H].
  - left. rewrite H, Hm. auto.
  - right. rewrite H. exact Hm.
Qed.

Lemma picked_no_emission number st :
  picked st -> emitted (handleNumberSelect number st) = emitted st.
Proof.
  intros Hp. destruct (handleNumberSelect_emitted number st)
    as [(_ & _ & Hu)|H]; [|exact H].
  apply me_without_number_spec in Hu. apply picked_not_unpicked in Hp.
  congruence.
Qed.

Lemma on_screen_lobby_not_started st :
  on_screen LobbyScreen st = true ->
  GameState.gameStarted (gameState st) = false /\ gameOver st = false.
Proof.
  unfold on_screen, render. rewrite bool_decide_eq_true.
  destruct (showStartScreen st), (lobbyStep st), (gameOver st),
    (GameState.gameStarted (gameState st)); simpl; intros [=]; auto.
Qed.

(** C2. [handleNumberSelect] is called by the buttons of the number pad,
    and by nothing else. A click on the pad sends [selectNumber] only when
    the local participant, found by id in the roster, has no number
    recorded and the round has not started, the pad being part of the lobby
    screen; and the handler itself sends only for a participant without
    number. While the snapshot shows a number for the local participant
    the pad is not there, and a click changes nothing at all; the handler,
    were it run again, would send nothing either, however often. *)
Theorem selectNumber_only_unpicked_before_start :
  forall (st : Client) (number : Z),
    let st' := on_action (click_select number) st in
    (emitted st' = emitted st
     \/ emitted st' = emitted st ++ [selectNumber number]
        /\ unpicked st
        /\ GameState.gameStarted (gameState st) = false
        /\ gameOver st = false)
    /\ (emitted (handleNumberSelect number st) = emitted st
        \/ emitted (handleNumberSelect number st)
           = emitted st ++ [selectNumber number]
           /\ unpicked st)
    /\ (picked st ->
        st' = st
        /\ emitted (handleNumberSelect number st) = emitted st
        /\ forall again : Z,
             emitted (handleNumberSelect again (handleNumberSelect number st))
             = emitted st).
Proof.
  intros st number st'. split; [|split].
  - subst st'. simpl. unfold select_button_rendered.
    destruct (on_screen LobbyScreen st) eqn:Hs; simpl; [|auto].
    destruct (me_without_number st) eqn:Hg; simpl; [|auto].
    destruct (bool_decide _); simpl; [|auto].
    apply on_screen_lobby_not_started in Hs as [Hs Hgo].
    destruct (handleNumberSelect_emitted number st) as [(H & _ & Hu) | H];
      auto.
  - destruct (handleNumberSelect_emitted number st) as [(H & _ & Hu) | H];
      auto.
  - intros Hp. split; [|split].
    + subst st'. simpl. unfold select_button_rendered.
      rewrite (picked_not_unpicked st Hp), andb_false_r. reflexivity.
    + apply picked_no_emission, Hp.
    + intros again. rewrite picked_no_emission.
      * apply picked_no_emission, Hp.
      * destruct Hp as (me & Hf & Hk). exists me.
        rewrite handleNumberSelect_find_me. auto.
Qed.

(** ** Self-identification does not depend on display names *)

Lemma emitted_emit m st :
  emitted (emit m st)
  = match socketRef st with
    | Some _ => emitted st ++ [m]
    | None => emitted st
    end.
Proof. unfold emit. destruct (socketRef st) eqn:E; open_state st; reflexivity. Qed.

Lemma arm_suppression_channel st :
  emitted (arm_suppression st) = emitted st
  /\ socketRef (arm_suppression st) = socketRef st.
Proof. unfold arm_suppression, setTimeout. open_state st. split; reflexivity. Qed.

Section NameIndependence.

Variables s1 s2 : Client.
Hypothesis Hdn : differ_only_in_names s1 s2.

Lemma dn_find_me :
  option_Forall2 same_but_name (find_me s1) (find_me s2).
Proof.
  unfold find_me. rewrite (dn_mySocketId _ _ Hdn).
  induction (dn_players _ _ Hdn) as [|p q r1 r2 Hpq _ IH]; cbn [find];
    [constructor|].
  destruct Hpq as (Hid & Hrest). rewrite Hid.
  destruct (Js.strict_eq (Some (Player.id q)) (mySocketId s2));
    [constructor; split; assumption | exact IH].
Qed.

Lemma dn_me_without_number : me_without_number s1 = me_without_number s2.
Proof.
  unfold me_without_number.
  destruct dn_find_me as [p q (_ & Hsel & _)|]; [|reflexivity].
  rewrite Hsel. reflexivity.
Qed.

Lemma dn_my_turn : my_turn s1 = my_turn s2.
Proof.
  unfold my_turn, socket_id.
  rewrite (dn_socketRef _ _ Hdn), (dn_currentTurn _ _ Hdn). reflexivity.
Qed.

Lemma dn_am_leader : am_leader s1 = am_leader s2.
Proof.
  unfold am_leader. rewrite (dn_mySocketId _ _ Hdn).
  destruct (dn_players _ _ Hdn) as [|p q r1 r2 (Hid & _) Hr]; [reflexivity|].
  cbn [length lookup list_lookup fmap option_fmap option_map].
  apply Forall2_length in Hr. rewrite Hid, Hr. reflexivity.
Qed.

Lemma dn_everyone_selected : everyone_selected s1 = everyone_selected s2.
Proof.
  unfold everyone_selected.
  induction (dn_players _ _ Hdn) as [|p q r1 r2 (_ & Hsel & _) _ IH];
    [reflexivity|].
  simpl. rewrite Hsel, IH. reflexivity.
Qed.

Lemma dn_render : render s1 = render s2.
Proof.
  unfold render.
  rewrite (dn_showStartScreen _ _ Hdn), (dn_lobbyStep _ _ Hdn),
    (dn_gameOver _ _ Hdn), (dn_gameStarted _ _ Hdn). reflexivity.
Qed.

Lemma dn_emit m : emitted (emit m s1) = emitted (emit m s2).
Proof.
  rewrite !emitted_emit, (dn_socketRef _ _ Hdn), (dn_emitted _ _ Hdn).
  reflexivity.
Qed.

Lemma dn_handleNumberSelect number :
  emitted (handleNumberSelect number s1) = emitted (handleNumberSelect number s2).
Proof.
  pose proof (dn_emitted _ _ Hdn) as He.
  pose proof (dn_socketRef _ _ Hdn) as Hs.
  destruct (arm_suppression_channel s1) as (He1 & Hs1).
  destruct (arm_suppression_channel s2) as (He2 & Hs2).
  rewrite !handleNumberSelect_unfold, (dn_gameOver _ _ Hdn), dn_me_without_number.
  destruct (gameOver s2); [exact He|].
  destruct (me_without_number s2); rewrite ?emitted_emit; [|congruence].
  rewrite Hs1, Hs2, He1, He2, Hs, He. reflexivity.
Qed.

Lemma dn_handleNumberElimination number :
  emitted (handleNumberElimination number s1)
  = emitted (handleNumberElimination number s2).
Proof.
  unfold handleNumberElimination.
  rewrite (dn_gameStarted _ _ Hdn), dn_my_turn.
  destruct (GameState.gameStarted (gameState s2) && my_turn s2);
    [apply dn_emit | apply (dn_emitted _ _ Hdn)].
Qed.

Lemma dn_startGame_onClick :
  emitted (startGame_onClick s1) = emitted (startGame_onClick s2).
Proof.
  unfold startGame_onClick. rewrite dn_everyone_selected.
  destruct (everyone_selected s2); [apply dn_emit | apply (dn_emitted _ _ Hdn)].
Qed.

Lemma dn_handleMainMenu :
  emitted (handleMainMenu s1) = emitted (handleMainMenu s2).
Proof.
  pose proof (dn_emit leaveLobby) as He.
  unfold handleMainMenu.
  destruct (emit leaveLobby s1), (emit leaveLobby s2); exact He.
Qed.

Lemma dn_on_action a :
  emitted (on_action a s1) = emitted (on_action a s2).
Proof.
  pose proof (dn_emitted _ _ Hdn) as He.
  destruct a as [n| |n| |]; simpl;
    unfold select_button_rendered, start_button_rendered,
      start_button_disabled, board_button_rendered, board_button_disabled,
      on_screen;
    rewrite dn_render, ?dn_me_without_number, ?dn_am_leader,
      ?dn_everyone_selected, ?dn_my_turn, ?(dn_numbers _ _ Hdn).
  - destruct (_ && _); [apply dn_handleNumberSelect | exact He].
  - destruct (_ && _); [apply dn_startGame_onClick | exact He].
  - destruct (_ && _); [apply dn_handleNumberElimination | exact He].
  - destruct (bool_decide _); [apply dn_emit | exact He].
  - destruct (bool_decide _); [apply dn_handleMainMenu | exact He].
Qed.

End NameIndependence.

(** C1. The three checks that gate an action (is it my turn, has the local
    participant no number yet, is the local participant the leader) are
    computed from ids only: on two states that differ only in display
    names they give the same answers, and every handler and every click
    emits the same messages. *)
Theorem self_identification_ignores_names :
  forall s1 s2 : Client,
    differ_only_in_names s1 s2 ->
    my_turn s1 = my_turn s2
    /\ me_without_number s1 = me_without_number s2
    /\ am_leader s1 = am_leader s2
    /\ (forall number,
          emitted (handleNumberElimination number s1)
          = emitted (handleNumberElimination number s2))
    /\ (forall number,
          emitted (handleNumberSelect number s1)
          = emitted (handleNumberSelect number s2))
    /\ (forall a : Action, emitted (on_action a s1) = emitted (on_action a s2)).
Proof.
  intros s1 s2 Hdn.
  split; [apply dn_my_turn, Hdn|].
  split; [apply dn_me_without_number, Hdn|].
  split; [apply dn_am_leader, Hdn|].
  split; [intros n; apply dn_handleNumberElimination, Hdn|].
  split; [intros n; apply dn_handleNumberSelect, Hdn|].
  intros a; apply dn_on_action, Hdn.
Qed.

Lemma lobby_renamed_differs_only_in_names :
  differ_only_in_names lobby_unpicked lobby_renamed.
Proof. constructor; try reflexivity. repeat constructor. Qed.

Lemma self_identification_ignores_names_witness :
  differ_only_in_names lobby_unpicked lobby_renamed
  /\ am_leader lobby_unpicked = am_leader lobby_renamed
  /\ emitted (on_action (click_select 4) lobby_unpicked)
     = emitted (on_action (click_select 4) lobby_renamed).
Proof.
  split; [exact lobby_renamed_differs_only_in_names|].
  pose proof (self_identification_ignores_names lobby_unpicked lobby_renamed
                lobby_renamed_differs_only_in_names)
    as (_ & _ & Hl & _ & _ & Ha).
  split; [exact Hl | exact (Ha (click_select 4))].
Defined.

(** ** Transient notifications and their timers *)

(** *** The suppression window *)

(** An error arriving while the flag is up changes nothing. *)
Lemma on_error_dropped_while_flag_up message st :
  justPickedNumber st = true -> on_inbound (error_msg message) st = st.
Proof. intros H. simpl. unfold on_error. rewrite H. reflexivity. Qed.

Lemma run_callback_justPickedNumber cb st :
  cb <> clear_justPickedNumber ->
  justPickedNumber (run_callback cb st) = justPickedNumber st.
Proof. intros H. destruct cb; try contradiction; open_state st; reflexivity. Qed.

(** Only a due [clear_justPickedNumber] timer can lower the flag. *)
Lemma fire_due_justPickedNumber t q st :
  (forall x, x ∈ q -> Timer.due x <= t ->
             Timer.callback x <> clear_justPickedNumber) ->
  justPickedNumber (fire_due t q st) = justPickedNumber st.
Proof.
  revert st; induction q as [|x q IH]; intros st Hq; simpl.
  - open_state st; reflexivity.
  - destruct (Timer.due x <=? t) eqn:Hd.
    + rewrite IH by (intros y Hy; apply Hq; apply list_elem_of_further, Hy).
      rewrite run_callback_justPickedNumber
        by (apply Hq; [apply list_elem_of_here | lia]).
      open_state st; reflexivity.
    + open_state st; reflexivity.
Qed.

Lemma elem_of_enqueue_inv tm q x : x ∈ enqueue tm q -> x = tm \/ x ∈ q.
Proof.
  induction q as [|y q IH]; simpl.
  - intros ->%list_elem_of_singleton. auto.
  - destruct (Timer.due y <=? Timer.due tm).
    + intros [->|H]%elem_of_cons; [right; apply list_elem_of_here|].
      destruct (IH H) as [->|H']; [auto | right; apply list_elem_of_further, H'].
    + intros [->|H]%elem_of_cons; auto.
Qed.

(** When no earlier clearing of the flag is pending, the window armed by
    [handleNumberSelect] does last 500 ms: an error delivered before that
    finds the flag up and is dropped, the state being left as the clock
    found it. *)
Lemma error_dropped_inside_single_window st number t message :
  gameOver st = false ->
  (forall x, x ∈ timers st -> Timer.callback x <> clear_justPickedNumber) ->
  t < now st + 500 ->
  let armed := advance t (handleNumberSelect number st) in
  justPickedNumber armed = true
  /\ step (handleNumberSelect number st) (t, recv (error_msg message)) = armed.
Proof.
  intros Hgo Hq Ht armed.
  assert (Hj : justPickedNumber armed = true).
  { subst armed. unfold advance.
    match goal with |- justPickedNumber (set_now ?n ?s) = _ =>
      replace (justPickedNumber (set_now n s)) with (justPickedNumber s)
        by (destruct s; reflexivity) end.
    pose proof (handleNumberSelect_flag_up number st Hgo) as Hup.
    pose proof (handleNumberSelect_shape number st Hgo) as Hshape.
    rewrite fire_due_justPickedNumber; [exact Hup|].
    intros x Hx Hdue.
    assert (Hin : x ∈ timers (arm_suppression st)).
    { destruct Hshape as [He | He]; rewrite He in Hx; [|exact Hx].
      destruct (emit_frame (selectNumber number) (arm_suppression st))
        as (_ & _ & Htm & _). rewrite Htm in Hx. exact Hx. }
    unfold arm_suppression, setTimeout in Hin.
    assert (Hin' : x ∈ enqueue
                     (Timer.mk (nextTimer st) (now st + 500)
                        clear_justPickedNumber) (timers st))
      by (open_state st; exact Hin).
    apply elem_of_enqueue_inv in Hin' as [-> | Hold]; [simpl in Hdue; lia|].
    apply Hq, Hold. }
  split; [exact Hj|].
  unfold step; simpl. fold armed. unfold on_error. rewrite Hj. reflexivity.
Qed.

(** C3, on the code. The error arrives 100 ms after [selectNumber 7] was
    emitted, inside the window that call armed, and is displayed: the
    timer left pending by the selection made 450 ms earlier has lowered
    the flag in between. *)
Theorem error_shown_inside_rearmed_window :
  emitted double_pick = [selectNumber 3; selectNumber 7]
  /\ now double_pick = 1450
  /\ justPickedNumber double_pick = true
  /\ List.map Timer.due (timers double_pick) = [1500; 1950]
  /\ justPickedNumber (advance 1550 double_pick) = false
  /\ error (step double_pick (1550, recv (error_msg already_chosen)))
     = Some already_chosen.
Proof. repeat split. Qed.

(** *** Banners *)

(** C5, on the code. The second banner replaces the first, but the first
    banner's timer is still pending next to the new one, and when it fires,
    3000 ms after the first arrival, it removes the second banner, which
    has been visible for 1000 ms only. *)
Theorem stale_timer_clears_second_banner :
  eliminationInfo two_banners = Some banner_second
  /\ List.map (fun x => (Timer.due x, Timer.callback x)) (timers two_banners)
     = [(5000, clear_eliminationInfo); (7000, clear_eliminationInfo)]
  /\ eliminationInfo (advance 4999 two_banners) = Some banner_second
  /\ eliminationInfo (advance 5000 two_banners) = None.
Proof. repeat split. Qed.

(** The error handler, in contrast, cancels the pending timer before it
    arms a new one: a second error 2000 ms after the first stays for its
    own 3000 ms. *)
Lemma error_timer_is_rescheduled :
  List.map (fun x => (Timer.due x, Timer.callback x)) (timers two_errors)
  = [(7000, clear_error)]
  /\ error (advance 5000 two_errors) = Some already_chosen
  /\ error (advance 6999 two_errors) = Some already_chosen
  /\ error (advance 7000 two_errors) = None.
Proof. repeat split. Qed.

(** ** Invariants of the event loop *)

Lemma enqueue_sorted tm q :
  StronglySorted (fun x y => Timer.due x <= Timer.due y) q ->
  StronglySorted (fun x y => Timer.due x <= Timer.due y) (enqueue tm q).
Proof.
  induction 1 as [|x q Hq IH Hx]; simpl.
  - repeat constructor.
  - destruct (Timer.due x <=? Timer.due tm) eqn:Hd.
    + constructor; [exact IH|].
      apply List.Forall_forall. intros y Hy%list_elem_of_In.
      apply elem_of_enqueue_inv in Hy as [-> | Hy]; [lia|].
      rewrite List.Forall_forall in Hx. apply Hx, list_elem_of_In, Hy.
    + constructor; [constructor; assumption|].
      constructor; [lia|].
      eapply List.Forall_impl; [|exact Hx]. intros y Hy; simpl in Hy. lia.
Qed.

Lemma filter_sorted (f : Timer.t -> bool) q :
  StronglySorted (fun x y => Timer.due x <= Timer.due y) q ->
  StronglySorted (fun x y => Timer.due x <= Timer.due y) (List.filter f q).
Proof.
  induction 1 as [|x q Hq IH Hx]; simpl; [constructor|].
  destruct (f x); [|exact IH].
  constructor; [exact IH|].
  apply List.Forall_forall. intros y Hy%filter_In.
  rewrite List.Forall_forall in Hx. apply Hx, Hy.
Qed.

Lemma run_callback_frame cb st :
  mySocketId (run_callback cb st) = mySocketId st
  /\ socketRef (run_callback cb st) = socketRef st
  /\ timers (run_callback cb st) = timers st.
Proof. destruct cb; open_state st; repeat split. Qed.

Lemma fire_due_frame t q st :
  mySocketId (fire_due t q st) = mySocketId st
  /\ socketRef (fire_due t q st) = socketRef st
  /\ exists fired, q = fired ++ timers (fire_due t q st).
Proof.
  revert st; induction q as [|x q IH]; intros st; simpl.
  - open_state st. repeat split. exists []. reflexivity.
  - destruct (Timer.due x <=? t).
    + destruct (IH (run_callback (Timer.callback x)
                      (set_now (Z.max (now st) (Timer.due x)) (set_timers q st))))
        as (Hm & Hs & fired & Hf).
      destruct (run_callback_frame (Timer.callback x)
                  (set_now (Z.max (now st) (Timer.due x)) (set_timers q st)))
        as (Hm' & Hs' & _).
      rewrite Hm, Hs, Hm', Hs'.
      split; [open_state st; reflexivity|].
      split; [open_state st; reflexivity|].
      exists (x :: fired). simpl. f_equal. exact Hf.
    + open_state st. repeat split. exists []. reflexivity.
Qed.

Lemma sorted_app_r {A} (R : A -> A -> Prop) (l1 l2 : list A) :
  StronglySorted R (l1 ++ l2) -> StronglySorted R l2.
Proof.
  induction l1 as [|x l1 IH]; simpl; [auto|].
  intros H. apply StronglySorted_inv in H as [H _]. auto.
Qed.

Lemma advance_invariant t st : invariant st -> invariant (advance t st).
Proof.
  intros [Hi Hs]. unfold advance, timers_sorted, socket_id in *.
  destruct (fire_due_frame t (timers st) st) as (Hm & Hr & fired & Hf).
  rewrite Hf in Hs. apply sorted_app_r in Hs.
  rewrite <- Hm, <- Hr in Hi.
  generalize dependent (fire_due t (timers st) st). intros s Hm Hr Hs Hi Hf.
  split; unfold timers_sorted, socket_id; open_state s; assumption.
Qed.

Ltac split_cases :=
  repeat match goal with
         | |- context [if ?b then _ else _] => destruct b; simpl in *
         | |- context [match ?o with Some _ => _ | None => _ end] =>
             destruct o; simpl in *
         end.

Lemma handle_invariant e st : invariant st -> invariant (handle e st).
Proof.
  intros [Hi Hs]. unfold timers_sorted, socket_id in *.
  destruct e as [m | a].
  - destruct m; simpl;
      unfold on_connect, on_playerList, on_gameStarted, on_numberEliminated,
        on_error, on_youWon, on_youLost, on_playerEliminated, on_gameOver,
        on_lobbyCreated, on_lobbyJoined, on_resetNumbers, on_lobbyReset,
        emit, setTimeout, clearTimeout, socket_id;
      destruct st; unfold_setters; simpl in *; split_cases;
      (split; unfold timers_sorted, socket_id; simpl;
       auto using enqueue_sorted, filter_sorted).
  - destruct a; simpl;
      unfold handleNumberSelect, handleNumberElimination, startGame_onClick,
        handlePlayAgain, handleMainMenu, emit, setTimeout;
      destruct st; unfold_setters; simpl in *; split_cases;
      (split; unfold timers_sorted, socket_id; simpl;
       auto using enqueue_sorted, filter_sorted).
Qed.

Lemma run_invariant trace st : invariant st -> invariant (run trace st).
Proof.
  revert st; induction trace as [|te trace IH]; intros st H; simpl; [exact H|].
  apply IH. unfold step. apply handle_invariant, advance_invariant, H.
Qed.

Lemma init_invariant : invariant init.
Proof. split; [reflexivity | constructor]. Qed.

(** In every state the client reaches, the captured identity and the id of
    the socket coincide, so that the turn check of
    [handleNumberElimination] and the roster checks made with [mySocketId]
    speak of the same participant. *)
Lemma captured_identity_is_socket_id trace :
  mySocketId (run trace init) = socket_id (run trace init).
Proof. apply inv_identity, run_invariant, init_invariant. Qed.

(** In a reachable state, holding the turn is the same whether it is told
    from the socket or from the captured identity. *)
Lemma holds_turn_captured_identity trace :
  let st := run trace init in
  holds_turn st
  <-> exists me, mySocketId st = Some me
                 /\ GameState.currentTurn (gameState st) = Some me.
Proof.
  intros st. unfold holds_turn. subst st.
  rewrite captured_identity_is_socket_id. reflexivity.
Qed.

(** *** What does hold of the banner timers *)

Lemma run_callback_no_banner cb st :
  eliminationInfo st = None -> eliminationInfo (run_callback cb st) = None.
Proof. destruct cb; open_state st; auto. Qed.

Lemma fire_due_no_banner t q st :
  eliminationInfo st = None -> eliminationInfo (fire_due t q st) = None.
Proof.
  revert st; induction q as [|x q IH]; intros st H; simpl.
  - open_state st; exact H.
  - destruct (Timer.due x <=? t); [|open_state st; exact H].
    apply IH, run_callback_no_banner. open_state st; exact H.
Qed.

Lemma fire_due_clears_banner t q st x :
  StronglySorted (fun a b => Timer.due a <= Timer.due b) q ->
  x ∈ q -> Timer.due x <= t -> Timer.callback x = clear_eliminationInfo ->
  eliminationInfo (fire_due t q st) = None.
Proof.
  intros Hs; revert st; induction Hs as [|y q Hq IH Hy]; intros st Hx Hd Hc.
  - apply elem_of_nil in Hx. contradiction.
  - simpl. apply elem_of_cons in Hx as [<- | Hx].
    + replace (Timer.due x <=? t) with true by (symmetry; apply Z.leb_le, Hd).
      apply fire_due_no_banner. rewrite Hc. open_state st; reflexivity.
    + rewrite List.Forall_forall in Hy.
      apply list_elem_of_In in Hx as Hx'. apply Hy in Hx'.
      replace (Timer.due y <=? t) with true by (symmetry; apply Z.leb_le; lia).
      apply IH; assumption.
Qed.

(** A banner that arrived 3000 ms ago, or more, is not displayed any more
    (no other event having occurred since). *)
Lemma banner_gone_after_3000 st info t :
  timers_sorted st -> now st + 3000 <= t ->
  eliminationInfo (on_inbound (playerEliminated info) st) = Some info
  /\ eliminationInfo (advance t (on_inbound (playerEliminated info) st)) = None.
Proof.
  intros Hs Ht. split; [unfold on_inbound, on_playerEliminated, setTimeout;
                        open_state st; reflexivity|].
  unfold advance.
  match goal with |- eliminationInfo (set_now ?n ?s) = _ =>
    replace (eliminationInfo (set_now n s)) with (eliminationInfo s)
      by (destruct s; reflexivity) end.
  apply (fire_due_clears_banner t _ _
           (Timer.mk (nextTimer st) (now st + 3000) clear_eliminationInfo));
    simpl; [| |lia|reflexivity];
    unfold on_playerEliminated, setTimeout, timers_sorted in *;
    open_state st; [apply enqueue_sorted, Hs | apply elem_of_enqueue].
Qed.

(** *** The stale timers, in general *)

Lemma elem_of_enqueue_old tm q x : x ∈ q -> x ∈ enqueue tm q.
Proof.
  induction q as [|y q IH]; simpl; [intros H; apply elem_of_nil in H; tauto|].
  intros [-> | H]%elem_of_cons; destruct (Timer.due y <=? Timer.due tm).
  - apply list_elem_of_here.
  - apply list_elem_of_further, list_elem_of_here.
  - apply list_elem_of_further, IH, H.
  - do 2 apply list_elem_of_further. exact H.
Qed.

Lemma run_callback_timers cb st : timers (run_callback cb st) = timers st.
Proof. apply run_callback_frame. Qed.

(** A timer that is not due yet stays in the queue. *)
Lemma fire_due_keeps_pending t q st x :
  x ∈ q -> t < Timer.due x -> x ∈ timers (fire_due t q st).
Proof.
  revert st; induction q as [|y q IH]; intros st Hx Hd; simpl.
  - apply elem_of_nil in Hx. contradiction.
  - destruct (Timer.due y <=? t) eqn:Hy.
    + apply elem_of_cons in Hx as [-> | Hx]; [lia|]. apply IH; assumption.
    + open_state st. exact Hx.
Qed.

Lemma advance_timers t st : timers (advance t st) = timers (fire_due t (timers st) st).
Proof. unfold advance. destruct (fire_due t (timers st) st); reflexivity. Qed.

Lemma advance_timers_sorted t st : timers_sorted st -> timers_sorted (advance t st).
Proof.
  unfold timers_sorted. rewrite advance_timers. intros Hs.
  destruct (fire_due_frame t (timers st) st) as (_ & _ & fired & Hf).
  rewrite Hf in Hs. eapply sorted_app_r, Hs.
Qed.

Lemma on_playerEliminated_timers info st :
  timers (on_playerEliminated info st)
  = enqueue (Timer.mk (nextTimer st) (now st + 3000) clear_eliminationInfo)
      (timers st)
  /\ eliminationInfo (on_playerEliminated info st) = Some info.
Proof. unfold on_playerEliminated, setTimeout. open_state st. split; reflexivity. Qed.

(** Whenever a second banner arrives less than 3000 ms after a first one,
    it is removed 3000 ms after the arrival of the first. *)
Lemma second_banner_cleared_by_first_timer st first second t2 :
  timers_sorted st ->
  now st <= t2 < now st + 3000 ->
  let s2 := step (on_inbound (playerEliminated first) st)
              (t2, recv (playerEliminated second)) in
  eliminationInfo s2 = Some second
  /\ eliminationInfo (advance (now st + 3000) s2) = None.
Proof.
  intros Hs Ht s2. subst s2. unfold step; simpl.
  set (s1 := on_playerEliminated first st).
  set (tm := Timer.mk (nextTimer st) (now st + 3000) clear_eliminationInfo).
  destruct (on_playerEliminated_timers first st) as (Hq1 & _). fold s1 tm in Hq1.
  destruct (on_playerEliminated_timers second (advance t2 s1)) as (Hq2 & He2).
  split; [exact He2|].
  assert (Hin : tm ∈ timers (advance t2 s1)).
  { rewrite advance_timers. apply fire_due_keeps_pending; [|simpl; lia].
    rewrite Hq1. apply elem_of_enqueue. }
  assert (Hsorted : timers_sorted (advance t2 s1)).
  { apply advance_timers_sorted. unfold timers_sorted. rewrite Hq1.
    apply enqueue_sorted, Hs. }
  unfold advance at 1.
  match goal with |- eliminationInfo (set_now ?n ?s) = _ =>
    replace (eliminationInfo (set_now n s)) with (eliminationInfo s)
      by (destruct s; reflexivity) end.
  apply (fire_due_clears_banner _ _ _ tm); [| |simpl; lia|reflexivity];
    rewrite Hq2.
  - apply enqueue_sorted, Hsorted.
  - apply elem_of_enqueue_old, Hin.
Qed.

Lemma run_callback_flag_down cb st :
  justPickedNumber st = false -> justPickedNumber (run_callback cb st) = false.
Proof. destruct cb; open_state st; auto. Qed.

Lemma fire_due_flag_down t q st :
  justPickedNumber st = false -> justPickedNumber (fire_due t q st) = false.
Proof.
  revert st; induction q as [|x q IH]; intros st H; simpl.
  - open_state st; exact H.
  - destruct (Timer.due x <=? t); [|open_state st; exact H].
    apply IH, run_callback_flag_down. open_state st; exact H.
Qed.

Lemma fire_due_lowers_flag t q st x :
  StronglySorted (fun a b => Timer.due a <= Timer.due b) q ->
  x ∈ q -> Timer.due x <= t -> Timer.callback x = clear_justPickedNumber ->
  justPickedNumber (fire_due t q st) = false.
Proof.
  intros Hs; revert st; induction Hs as [|y q Hq IH Hy]; intros st Hx Hd Hc.
  - apply elem_of_nil in Hx. contradiction.
  - simpl. apply elem_of_cons in Hx as [<- | Hx].
    + replace (Timer.due x <=? t) with true by (symmetry; apply Z.leb_le, Hd).
      apply fire_due_flag_down. rewrite Hc. open_state st; reflexivity.
    + rewrite List.Forall_forall in Hy.
      apply list_elem_of_In in Hx as Hx'. apply Hy in Hx'.
      replace (Timer.due y <=? t) with true by (symmetry; apply Z.leb_le; lia).
      apply IH; assumption.
Qed.

Lemma handleNumberSelect_timers number st :
  gameOver st = false ->
  timers (handleNumberSelect number st)
  = enqueue (Timer.mk (nextTimer st) (now st + 500) clear_justPickedNumber)
      (timers st).
Proof.
  intros Hgo. rewrite handleNumberSelect_unfold, Hgo.
  assert (Ha : timers (arm_suppression st)
               = enqueue (Timer.mk (nextTimer st) (now st + 500)
                            clear_justPickedNumber) (timers st)).
  { unfold arm_suppression, setTimeout. open_state st. reflexivity. }
  destruct (me_without_number st); [|exact Ha].
  destruct (emit_frame (selectNumber number) (arm_suppression st))
    as (_ & _ & -> & _). exact Ha.
Qed.

Lemma fire_due_gameOver t q st : gameOver (fire_due t q st) = gameOver st.
Proof.
  revert st; induction q as [|x q IH]; intros st; simpl.
  - open_state st; reflexivity.
  - destruct (Timer.due x <=? t); [|open_state st; reflexivity].
    rewrite IH. destruct (Timer.callback x); open_state st; reflexivity.
Qed.

Lemma advance_gameOver t st : gameOver (advance t st) = gameOver st.
Proof.
  unfold advance. rewrite <- (fire_due_gameOver t (timers st) st).
  destruct (fire_due t (timers st) st); reflexivity.
Qed.

(** Whenever [handleNumberSelect] runs a second time less than 500 ms
    after a first time, the flag is down again 500 ms after the first call,
    and an error arriving from then on is displayed, also within 500 ms of
    the second call. *)
Lemma second_window_closed_by_first_timer st n1 n2 t2 t message :
  timers_sorted st ->
  gameOver st = false ->
  now st <= t2 < now st + 500 ->
  now st + 500 <= t ->
  let s2 := handleNumberSelect n2 (advance t2 (handleNumberSelect n1 st)) in
  justPickedNumber s2 = true
  /\ justPickedNumber (advance t s2) = false
  /\ error (step s2 (t, recv (error_msg message))) = Some message.
Proof.
  intros Hs Hgo Ht2 Ht s2.
  set (s1 := handleNumberSelect n1 st) in *.
  set (tm := Timer.mk (nextTimer st) (now st + 500) clear_justPickedNumber).
  assert (Hq1 : timers s1 = enqueue tm (timers st))
    by (apply handleNumberSelect_timers, Hgo).
  assert (Hgo1 : gameOver (advance t2 s1) = false).
  { rewrite advance_gameOver. subst s1. rewrite handleNumberSelect_unfold, Hgo.
    destruct (me_without_number st);
      [destruct (emit_frame (selectNumber n1) (arm_suppression st))
         as (_ & _ & _ & _ & _ & ->)|];
      unfold arm_suppression, setTimeout; open_state st; exact Hgo. }
  assert (Hin : tm ∈ timers (advance t2 s1)).
  { rewrite advance_timers. apply fire_due_keeps_pending; [|simpl; lia].
    rewrite Hq1. apply elem_of_enqueue. }
  assert (Hsorted : timers_sorted (advance t2 s1)).
  { apply advance_timers_sorted. unfold timers_sorted. rewrite Hq1.
    apply enqueue_sorted, Hs. }
  pose proof (handleNumberSelect_flag_up n2 _ Hgo1) as Hup.
  fold s2 in Hup. split; [exact Hup|].
  assert (Hdown : justPickedNumber (advance t s2) = false).
  { unfold advance.
    match goal with |- justPickedNumber (set_now ?n ?s) = _ =>
      replace (justPickedNumber (set_now n s)) with (justPickedNumber s)
        by (destruct s; reflexivity) end.
    apply (fire_due_lowers_flag _ _ _ tm); [| |simpl; lia|reflexivity];
      subst s2; rewrite (handleNumberSelect_timers _ _ Hgo1).
    - apply enqueue_sorted, Hsorted.
    - apply elem_of_enqueue_old, Hin. }
  split; [exact Hdown|].
  unfold step; simpl. unfold on_error. rewrite Hdown.
  generalize (advance t s2); intros s.
  unfold setTimeout, clearTimeout. destruct s as [? ? ? ? ? ? ? ? ? ? ? ? ? ? ? ? et ? ? ? ? ?].
  unfold_setters; simpl. destruct et; reflexivity.
Qed.

(** ** The earlier revision of the component *)

(** Two participants typed the same name. Recognised by name, the second
    one passes for the leader on its own client; recognised by id, it does
    not. *)
Lemma name_check_mistakes_namesake_for_leader :
  GameState.players (gameState second_client) !! 1%nat
  = Some (Player.mk Al None false None sB)
  /\ mySocketId second_client = Some sB
  /\ Earlier.am_leader_by_name second_client = true
  /\ am_leader second_client = false.
Proof. repeat split. Qed.

(** * Further properties *)

(** ** What the clock does to a state *)

Lemma run_callback_untimed cb st : untimed (run_callback cb st) = untimed st.
Proof. destruct cb; open_state st; reflexivity. Qed.

Lemma fire_due_untimed t q st : untimed (fire_due t q st) = untimed st.
Proof.
  revert st; induction q as [|x q IH]; intros st; simpl.
  - open_state st; reflexivity.
  - destruct (Timer.due x <=? t); [|open_state st; reflexivity].
    rewrite IH, run_callback_untimed. open_state st; reflexivity.
Qed.

Lemma advance_untimed t st : untimed (advance t st) = untimed st.
Proof.
  unfold advance. rewrite <- (fire_due_untimed t (timers st) st).
  destruct (fire_due t (timers st) st); reflexivity.
Qed.

(** Use the equations between the untimed fields of [advance t st] and
    those of [st]. *)
Ltac untimed_eqs t st :=
  let H := fresh "Hun" in
  pose proof (advance_untimed t st) as H; unfold untimed in H;
  injection H as ? ? ? ? ? ? ? ? ? ? ? ? ? ? ? ? ?.

Lemma fire_due_now t q st :
  now st <= now (fire_due t q st) <= Z.max (now st) t.
Proof.
  revert st; induction q as [|x q IH]; intros st; simpl.
  - open_state st; lia.
  - destruct (Timer.due x <=? t) eqn:Hd; [|open_state st; lia].
    specialize (IH (run_callback (Timer.callback x)
                      (set_now (Z.max (now st) (Timer.due x)) (set_timers q st)))).
    replace (now (run_callback (Timer.callback x)
                    (set_now (Z.max (now st) (Timer.due x)) (set_timers q st))))
      with (Z.max (now st) (Timer.due x)) in IH
      by (destruct (Timer.callback x); open_state st; reflexivity).
    lia.
Qed.

(** The clock never runs backwards. *)
Lemma advance_now t st : now (advance t st) = Z.max (now st) t.
Proof.
  unfold advance. pose proof (fire_due_now t (timers st) st) as H.
  destruct (fire_due t (timers st) st); unfold_setters; simpl in *. lia.
Qed.

(** What is left in a sorted queue is not due. *)
Lemma fire_due_rest_not_due t q st x :
  StronglySorted (fun a b => Timer.due a <= Timer.due b) q ->
  x ∈ timers (fire_due t q st) -> t < Timer.due x.
Proof.
  intros Hs; revert st; induction Hs as [|y q Hq IH Hy]; intros st; simpl.
  - open_state st. intros H. apply elem_of_nil in H. contradiction.
  - destruct (Timer.due y <=? t) eqn:Hd; [apply IH|].
    replace (timers (set_timers (y :: q) st)) with (y :: q)
      by (destruct st; reflexivity).
    intros [-> | Hx]%elem_of_cons; [lia|].
    rewrite List.Forall_forall in Hy. apply list_elem_of_In, Hy in Hx. lia.
Qed.

Lemma fire_due_flag_was_up t q st :
  justPickedNumber (fire_due t q st) = true -> justPickedNumber st = true.
Proof.
  intros H. destruct (justPickedNumber st) eqn:E; [reflexivity|].
  rewrite fire_due_flag_down in H by exact E. discriminate.
Qed.

Lemma fire_due_banner_was_up t q st :
  is_Some (eliminationInfo (fire_due t q st)) -> is_Some (eliminationInfo st).
Proof.
  intros [b H]. destruct (eliminationInfo st) eqn:E; [eauto|].
  rewrite fire_due_no_banner in H by exact E. discriminate.
Qed.

Lemma advance_flag t st :
  justPickedNumber (advance t st) = justPickedNumber (fire_due t (timers st) st).
Proof. unfold advance. destruct (fire_due t (timers st) st); reflexivity. Qed.

Lemma advance_banner t st :
  eliminationInfo (advance t st) = eliminationInfo (fire_due t (timers st) st).
Proof. unfold advance. destruct (fire_due t (timers st) st); reflexivity. Qed.

Lemma NoDup_app_r_handles (l1 l2 : list Timer.t) :
  NoDup (Timer.handle <$> (l1 ++ l2)) -> NoDup (Timer.handle <$> l2).
Proof. rewrite fmap_app. intros H. apply list.NoDup_app in H as (_ & _ & H). exact H. Qed.

Lemma advance_timers_ok t st : timers_ok st -> timers_ok (advance t st).
Proof.
  intros [Hs He Hn Hr Hf Hb].
  untimed_eqs t st.
  pose proof (advance_now t st) as Hnow.
  destruct (fire_due_frame t (timers st) st) as (_ & _ & fired & Hfired).
  rewrite <- advance_timers in Hfired.
  assert (Hin : forall x, x ∈ timers (advance t st) -> x ∈ timers st).
  { intros x Hx. rewrite Hfired. apply elem_of_app. auto. }
  constructor.
  - apply advance_timers_sorted, Hs.
  - apply list.Forall_forall. intros x Hx.
    pose proof Hx as Hx'. rewrite advance_timers in Hx'.
    apply fire_due_rest_not_due in Hx'; [|exact Hs].
    rewrite list.Forall_forall in He.
    destruct (He x (Hin x Hx)) as (Hdue & Hhandle & Hcb).
    unfold timer_ok. split; [lia|]. split; congruence.
  - rewrite Hfired in Hn. eapply NoDup_app_r_handles, Hn.
  - intros h Hh. replace (nextTimer (advance t st)) with (nextTimer st).
    apply Hr. congruence.
  - rewrite advance_flag. intros Hup.
    apply fire_due_flag_was_up in Hup as Hwas.
    apply Hf, list.Exists_exists in Hwas as (x & Hx & Hc & Hd).
    apply list.Exists_exists. exists x.
    destruct (Z_le_gt_dec (Timer.due x) t) as [Hle | Hgt].
    + rewrite (fire_due_lowers_flag t _ st x Hs Hx Hle Hc) in Hup. discriminate.
    + split; [rewrite advance_timers; apply fire_due_keeps_pending; [exact Hx|lia]|].
      split; [exact Hc | lia].
  - rewrite advance_banner. intros Hup.
    apply fire_due_banner_was_up in Hup as Hwas.
    apply Hb, list.Exists_exists in Hwas as (x & Hx & Hc & Hd).
    apply list.Exists_exists. exists x.
    destruct (Z_le_gt_dec (Timer.due x) t) as [Hle | Hgt].
    + rewrite (fire_due_clears_banner t _ st x Hs Hx Hle Hc) in Hup.
      destruct Hup as [? [=]].
    + split; [rewrite advance_timers; apply fire_due_keeps_pending; [exact Hx|lia]|].
      split; [exact Hc | lia].
Qed.

(** ** Invariants of the timer queue *)

Lemma enqueue_perm tm q : enqueue tm q ≡ₚ tm :: q.
Proof.
  induction q as [|x q IH]; simpl; [reflexivity|].
  destruct (Timer.due x <=? Timer.due tm); [|reflexivity].
  rewrite IH. apply Permutation_swap.
Qed.

Lemma timers_ok_ext st st' : timed st' = timed st -> timers_ok st -> timers_ok st'.
Proof.
  unfold timed. intros [= Hnow Htm Hnext Het Hflag Hban] [Hs He Hn Hr Hf Hb].
  constructor; unfold timers_sorted, timer_ok in *;
    rewrite ?Hnow, ?Htm, ?Hnext, ?Het, ?Hflag, ?Hban; assumption.
Qed.

Lemma handle_below_next st x :
  Forall (timer_ok st) (timers st) -> x ∈ timers st ->
  (Timer.handle x < nextTimer st)%positive.
Proof.
  intros He Hx. rewrite list.Forall_forall in He. apply (He x Hx).
Qed.

(** Arming a timer that does not clear the error. *)
Lemma arm_timers_ok st st' cb delay :
  timers_ok st -> 0 < delay ->
  now st' = now st ->
  nextTimer st' = Pos.succ (nextTimer st) ->
  timers st' = enqueue (Timer.mk (nextTimer st) (now st + delay) cb) (timers st) ->
  errorTimeout st' = errorTimeout st ->
  cb <> clear_error ->
  (justPickedNumber st' = true ->
   justPickedNumber st = true \/ cb = clear_justPickedNumber /\ delay <= 500) ->
  (is_Some (eliminationInfo st') ->
   is_Some (eliminationInfo st) \/ cb = clear_eliminationInfo /\ delay <= 3000) ->
  timers_ok st'.
Proof.
  intros [Hs He Hn Hr Hf Hb] Hd Hnow Hnext Htm Het Hcb Hflag Hban.
  assert (Hfresh : forall x, x ∈ timers st ->
                             (Timer.handle x < nextTimer st)%positive)
    by (intros x; apply handle_below_next, He).
  constructor; unfold timers_sorted in *.
  - rewrite Htm. apply enqueue_sorted, Hs.
  - rewrite Htm, enqueue_perm. apply list.Forall_cons. split.
    + unfold timer_ok; simpl. rewrite Hnow, Hnext, Het.
      split; [lia|]. split; [lia|]. split; [congruence|].
      intros Hh. apply Hr in Hh. lia.
    + eapply list.Forall_impl; [exact He|]. intros x (H1 & H2 & H3).
      unfold timer_ok. rewrite Hnow, Hnext, Het. split; [exact H1|].
      split; [lia | exact H3].
  - rewrite Htm, enqueue_perm, fmap_cons. simpl.
    apply list.NoDup_cons. split; [|exact Hn].
    intros (x & Hx & Hin)%list_elem_of_fmap. apply Hfresh in Hin. lia.
  - intros h Hh. rewrite Hnext. rewrite Het in Hh. apply Hr in Hh. lia.
  - intros Hup. rewrite Htm, enqueue_perm, Hnow.
    destruct (Hflag Hup) as [Hwas | (-> & Hle)].
    + apply Exists_cons_tl, Hf, Hwas.
    + apply Exists_cons_hd. simpl. split; [reflexivity | lia].
  - intros Hup. rewrite Htm, enqueue_perm, Hnow.
    destruct (Hban Hup) as [Hwas | (-> & Hle)].
    + apply Exists_cons_tl, Hb, Hwas.
    + apply Exists_cons_hd. simpl. split; [reflexivity | lia].
Qed.

Lemma elem_of_filter_bool {A} (f : A -> bool) (l : list A) x :
  x ∈ List.filter f l <-> x ∈ l /\ f x = true.
Proof. rewrite !list_elem_of_In. apply filter_In. Qed.

Lemma NoDup_handles_filter (f : Timer.t -> bool) q :
  NoDup (Timer.handle <$> q) -> NoDup (Timer.handle <$> List.filter f q).
Proof.
  induction q as [|x q IH]; simpl; [auto|].
  rewrite list.NoDup_cons. intros [Hx Hq].
  destruct (f x); [|auto].
  simpl. apply list.NoDup_cons. split; [|auto].
  intros (y & Hy & Hin)%list_elem_of_fmap. apply elem_of_filter_bool in Hin as [Hin _].
  apply Hx, list_elem_of_fmap. eauto.
Qed.

Lemma on_error_timers_ok message st : timers_ok st -> timers_ok (on_error message st).
Proof.
  intros Hok. pose proof Hok as [Hs He Hn Hr Hf Hb].
  unfold on_error. destruct (justPickedNumber st) eqn:Hflag; [exact Hok|].
  set (cleared := match errorTimeout (setError (Some message) st) with
                  | Some h => clearTimeout h (setError (Some message) st)
                  | None => setError (Some message) st
                  end).
  assert (Hq : exists f, timers cleared = List.filter f (timers st)
                         /\ (forall x, x ∈ timers st ->
                                       Timer.callback x <> clear_error ->
                                       f x = true)
                         /\ (forall x, x ∈ timers st -> f x = true ->
                                       Timer.callback x <> clear_error)).
  { subst cleared.
    replace (errorTimeout (setError (Some message) st)) with (errorTimeout st)
      by (destruct st; reflexivity).
    rewrite list.Forall_forall in He.
    destruct (errorTimeout st) as [h|] eqn:Het.
    - exists (fun y => negb (Pos.eqb (Timer.handle y) h)). split; [|split].
      + unfold clearTimeout. destruct st; reflexivity.
      + intros x Hx Hcb. apply negb_true_iff, Pos.eqb_neq. intros Hh.
        destruct (He x Hx) as (_ & _ & Hiff). apply Hcb, Hiff. congruence.
      + intros x Hx Hfx%negb_true_iff%Pos.eqb_neq Hcb.
        destruct (He x Hx) as (_ & _ & Hiff). apply Hiff in Hcb. congruence.
    - exists (fun _ => true). split; [|split].
      + replace (timers (setError (Some message) st)) with (timers st)
          by (destruct st; reflexivity).
        clear. induction (timers st) as [|x q IH]; simpl; congruence.
      + reflexivity.
      + intros x Hx _ Hcb. destruct (He x Hx) as (_ & _ & Hiff).
        apply Hiff in Hcb. congruence. }
  destruct Hq as (f & Hq & Hkeep & Hdrop).
  assert (Hrest : now cleared = now st /\ nextTimer cleared = nextTimer st
                  /\ justPickedNumber cleared = false
                  /\ eliminationInfo cleared = eliminationInfo st).
  { subst cleared. unfold clearTimeout.
    destruct st; unfold_setters; simpl in *.
    destruct errorTimeout0; simpl; auto. }
  destruct Hrest as (Hnow & Hnext & Hdown & Hban).
  set (tm := Timer.mk (nextTimer st) (now st + 3000) clear_error).
  assert (Hfinal :
    let st' := (let '(h, s) := setTimeout clear_error 3000 cleared in
                set_errorTimeout (Some h) s) in
    now st' = now st /\ nextTimer st' = Pos.succ (nextTimer st)
    /\ timers st' = enqueue tm (List.filter f (timers st))
    /\ errorTimeout st' = Some (nextTimer st)
    /\ justPickedNumber st' = false
    /\ eliminationInfo st' = eliminationInfo st).
  { unfold setTimeout. subst tm. rewrite <- Hq, <- Hnow, <- Hnext, <- Hban, <- Hdown.
    destruct cleared; unfold_setters; simpl. repeat split. }
  cbv zeta in Hfinal.
  match type of Hfinal with now ?s = _ /\ _ => generalize dependent s end.
  intros st' (Hnow' & Hnext' & Htm' & Het' & Hflag' & Hban').
  assert (Hin : forall x, x ∈ List.filter f (timers st) -> x ∈ timers st)
    by (intros x Hx; apply elem_of_filter_bool in Hx; tauto).
  assert (Hfresh : forall x, x ∈ timers st ->
                             (Timer.handle x < nextTimer st)%positive)
    by (intros x; apply handle_below_next, He).
  constructor; unfold timers_sorted in *.
  - rewrite Htm'. apply enqueue_sorted, filter_sorted, Hs.
  - rewrite Htm', enqueue_perm. apply list.Forall_cons. split.
    + unfold timer_ok; subst tm; simpl. rewrite Hnow', Hnext', Het'.
      split; [lia|]. split; [lia|]. tauto.
    + apply list.Forall_forall. intros x Hx.
      apply elem_of_filter_bool in Hx as [Hx Hfx].
      rewrite list.Forall_forall in He. destruct (He x Hx) as (H1 & H2 & H3).
      unfold timer_ok. rewrite Hnow', Hnext', Het'.
      split; [exact H1|]. split; [lia|]. split.
      * intros Hcb. exfalso. exact (Hdrop x Hx Hfx Hcb).
      * intros [= Hh]. apply Hfresh in Hx. lia.
  - rewrite Htm', enqueue_perm, fmap_cons. subst tm; simpl.
    apply list.NoDup_cons. split; [|apply NoDup_handles_filter, Hn].
    intros (x & Hx & Hxin)%list_elem_of_fmap. apply Hin, Hfresh in Hxin. lia.
  - intros h Hh. rewrite Hnext'. rewrite Het' in Hh. injection Hh as <-. lia.
  - rewrite Hflag'. discriminate.
  - rewrite Hban'. intros Hup.
    apply Hb, list.Exists_exists in Hup as (x & Hx & Hc & Hd).
    rewrite Htm', enqueue_perm, Hnow'. apply Exists_cons_tl.
    apply list.Exists_exists. exists x. split; [|auto].
    apply elem_of_filter_bool. split; [exact Hx|].
    apply Hkeep; [exact Hx | congruence].
Qed.

Lemma banner_timers_ok info st :
  timers_ok st ->
  timers_ok (snd (setTimeout clear_eliminationInfo 3000
                    (setEliminationInfo (Some info) st))).
Proof.
  intros Hok.
  apply (arm_timers_ok st _ clear_eliminationInfo 3000 Hok); try lia;
    try discriminate; unfold setTimeout; destruct st; unfold_setters; simpl;
    auto.
  intros _. right. split; [reflexivity | lia].
Qed.

Lemma arm_suppression_timers_ok st : timers_ok st -> timers_ok (arm_suppression st).
Proof.
  intros Hok.
  apply (arm_timers_ok st _ clear_justPickedNumber 500 Hok); try lia;
    try discriminate; unfold arm_suppression, setTimeout;
    destruct st; unfold_setters; simpl; auto.
  intros _. right. split; [reflexivity | lia].
Qed.

Lemma emit_timed m st : timed (emit m st) = timed st.
Proof. unfold emit. destruct (socketRef st); [|reflexivity]. destruct st; reflexivity. Qed.

Lemma handleNumberSelect_timers_ok number st :
  timers_ok st -> timers_ok (handleNumberSelect number st).
Proof.
  intros Hok. rewrite handleNumberSelect_unfold.
  destruct (gameOver st); [exact Hok|].
  apply arm_suppression_timers_ok in Hok.
  destruct (me_without_number st); [|exact Hok].
  eapply timers_ok_ext; [apply emit_timed | exact Hok].
Qed.

(** Close a goal [timed (h st) = timed st] for a handler [h] that leaves the
    timers alone. *)
Ltac timed_same st :=
  unfold emit; destruct st; unfold_setters; simpl in *; split_cases;
  reflexivity.

Lemma on_inbound_timers_ok m st : timers_ok st -> timers_ok (on_inbound m st).
Proof.
  intros Hok. destruct m; simpl.
  - eapply timers_ok_ext; [|exact Hok]. unfold on_connect, socket_id. timed_same st.
  - eapply timers_ok_ext; [|exact Hok]. unfold on_playerList. timed_same st.
  - eapply timers_ok_ext; [|exact Hok]. unfold on_gameStarted. timed_same st.
  - eapply timers_ok_ext; [|exact Hok]. unfold on_numberEliminated. timed_same st.
  - apply on_error_timers_ok, Hok.
  - apply banner_timers_ok, Hok.
  - apply banner_timers_ok, Hok.
  - apply banner_timers_ok, Hok.
  - eapply timers_ok_ext; [|exact Hok]. unfold on_gameOver. timed_same st.
  - eapply timers_ok_ext; [|exact Hok]. unfold on_lobbyCreated. timed_same st.
  - eapply timers_ok_ext; [|exact Hok]. unfold on_lobbyJoined. timed_same st.
  - eapply timers_ok_ext; [|exact Hok]. unfold on_resetNumbers. timed_same st.
  - eapply timers_ok_ext; [|exact Hok]. unfold on_lobbyReset. timed_same st.
Qed.

Lemma on_action_timers_ok a st : timers_ok st -> timers_ok (on_action a st).
Proof.
  intros Hok. destruct a; simpl.
  - destruct (select_button_rendered number st);
      [apply handleNumberSelect_timers_ok|]; exact Hok.
  - destruct (_ && _); [|exact Hok].
    eapply timers_ok_ext; [|exact Hok]. unfold startGame_onClick.
    destruct (everyone_selected st); [apply emit_timed | reflexivity].
  - destruct (_ && _); [|exact Hok].
    eapply timers_ok_ext; [|exact Hok]. unfold handleNumberElimination.
    destruct (_ && _); [apply emit_timed | reflexivity].
  - destruct (on_screen _ _); [|exact Hok].
    eapply timers_ok_ext; [|exact Hok]. apply emit_timed.
  - destruct (on_screen _ _); [|exact Hok].
    eapply timers_ok_ext; [|exact Hok]. unfold handleMainMenu. timed_same st.
Qed.

Lemma on_form_timers_ok a st : timers_ok st -> timers_ok (on_form a st).
Proof.
  intros Hok. eapply timers_ok_ext; [|exact Hok].
  destruct a; simpl;
    repeat match goal with
           | |- context [on_screen ?s st] => destruct (on_screen s st); simpl
           | |- context [bool_decide ?P] => destruct (bool_decide P); simpl
           end;
    try reflexivity;
    unfold name_onChange, code_onChange, createLobby_onClick,
      joinLobby_onClick, back_onClick, error_truthy, emit;
    destruct st; unfold_setters; simpl in *; split_cases; reflexivity.
Qed.

Lemma init_timers_ok : timers_ok init.
Proof.
  constructor; simpl; try discriminate.
  - constructor.
  - constructor.
  - constructor.
  - intros [? [=]].
Qed.

Lemma step_input_timers_ok st ti : timers_ok st -> timers_ok (step_input st ti).
Proof.
  intros Hok. unfold step_input, step.
  destruct (snd ti) as [[m | a] | a]; simpl.
  - apply on_inbound_timers_ok, advance_timers_ok, Hok.
  - apply on_action_timers_ok, advance_timers_ok, Hok.
  - apply on_form_timers_ok, advance_timers_ok, Hok.
Qed.

Lemma reachable_timers_ok st : reachable st -> timers_ok st.
Proof.
  intros [trace ->]. unfold run_inputs.
  generalize init_timers_ok. generalize init.
  induction trace as [|ti trace IH]; intros s Hs; simpl; [exact Hs|].
  apply IH, step_input_timers_ok, Hs.
Qed.

(** ** Invariants of the session *)

Lemma socket_id_eq st st' : socketRef st' = socketRef st -> socket_id st' = socket_id st.
Proof. unfold socket_id. intros ->. reflexivity. Qed.

Lemma session_ok_same st st' :
  mySocketId st' = mySocketId st -> socketRef st' = socketRef st ->
  gameResult st' = gameResult st ->
  playerNameRef st' = playerNameRef st -> playerName st' = playerName st ->
  boardSize st' = boardSize st -> emitted st' = emitted st ->
  session_ok st -> session_ok st'.
Proof.
  intros H1 H2 H3 H4 H5 H6 H7 [Hi Hs Hr Hf Hb He].
  constructor; rewrite ?(socket_id_eq _ _ H2), ?H1, ?H2, ?H3, ?H4, ?H5, ?H6, ?H7;
    assumption.
Qed.

Lemma advance_session_ok t st : session_ok st -> session_ok (advance t st).
Proof. untimed_eqs t st. apply session_ok_same; assumption. Qed.

Lemma emit_session_ok m st :
  well_formed m -> session_ok st -> session_ok (emit m st).
Proof.
  intros Hm [Hi Hs Hr Hf Hb He]. unfold emit, socket_id in *.
  destruct (socketRef st) eqn:E; [|constructor; unfold socket_id; rewrite ?E; auto].
  constructor; unfold socket_id; destruct st; unfold_setters; simpl in *;
    subst; auto.
  apply list.Forall_app. split; [exact He|]. repeat constructor. exact Hm.
Qed.

(** Close the goals of [session_ok_same] for a handler that leaves the
    session fields alone. *)
Ltac session_same st :=
  apply session_ok_same; destruct st; unfold_setters; simpl in *; split_cases;
  reflexivity.

Lemma on_inbound_session_ok m st : session_ok st -> session_ok (on_inbound m st).
Proof.
  intros Hok. destruct m; simpl.
  - destruct Hok as [Hi Hs Hr Hf Hb He]. unfold on_connect, socket_id.
    destruct st; unfold_setters; simpl in *.
    constructor; unfold socket_id; simpl; eauto.
  - revert Hok. unfold on_playerList. session_same st.
  - revert Hok. unfold on_gameStarted. session_same st.
  - revert Hok. unfold on_numberEliminated. session_same st.
  - revert Hok. unfold on_error, setTimeout, clearTimeout. session_same st.
  - revert Hok. unfold on_youWon, setTimeout. session_same st.
  - revert Hok. unfold on_youLost, setTimeout. session_same st.
  - revert Hok. unfold on_playerEliminated, setTimeout. session_same st.
  - revert Hok. unfold on_gameOver. session_same st.
  - unfold on_lobbyCreated.
    set (s := setLobbyStep creating (setLobbyCode (Some code) st)).
    assert (Hs : session_ok s) by (revert Hok; subst s; session_same st).
    destruct (2 <=? length (Js.trim (playerNameRef s)))%nat eqn:Hlen;
      simpl; [|exact Hs].
    destruct (bool_decide (is_Some (socketRef s))); [|exact Hs].
    assert (He : session_ok (emit (joinLobby code (playerNameRef s)) s)).
    { apply emit_session_ok; [|exact Hs]. simpl. apply Nat.leb_le, Hlen. }
    revert He. generalize (emit (joinLobby code (playerNameRef s)) s).
    intros e. session_same e.
  - revert Hok. unfold on_lobbyJoined. session_same st.
  - revert Hok. unfold on_resetNumbers. session_same st.
  - destruct Hok as [Hi Hs Hr Hf Hb He]. unfold on_lobbyReset, socket_id in *.
    destruct st; unfold_setters; simpl in *.
    constructor; unfold socket_id; simpl; auto.
Qed.

Lemma arm_suppression_session_ok st : session_ok st -> session_ok (arm_suppression st).
Proof. unfold arm_suppression, setTimeout. session_same st. Qed.

Lemma on_action_session_ok a st : session_ok st -> session_ok (on_action a st).
Proof.
  intros Hok. destruct a; simpl.
  - destruct (select_button_rendered number st); [|exact Hok].
    rewrite handleNumberSelect_unfold. destruct (gameOver st); [exact Hok|].
    apply arm_suppression_session_ok in Hok.
    destruct (me_without_number st); [|exact Hok].
    apply emit_session_ok; [exact I | exact Hok].
  - destruct (_ && _); [|exact Hok]. unfold startGame_onClick.
    destruct (everyone_selected st); [|exact Hok].
    apply emit_session_ok; [exact I | exact Hok].
  - destruct (_ && _); [|exact Hok]. unfold handleNumberElimination.
    destruct (_ && _); [|exact Hok].
    apply emit_session_ok; [exact I | exact Hok].
  - destruct (on_screen _ _); [|exact Hok].
    apply emit_session_ok; [exact I | exact Hok].
  - destruct (on_screen _ _); [|exact Hok]. unfold handleMainMenu.
    apply (emit_session_ok leaveLobby) in Hok; [|exact I].
    destruct Hok as [Hi Hs Hr Hf Hb He]. unfold socket_id in *.
    destruct (emit leaveLobby st); unfold_setters; simpl in *.
    constructor; unfold socket_id; simpl; auto.
Qed.

Lemma on_form_session_ok a st : session_ok st -> session_ok (on_form a st).
Proof.
  intros Hok. destruct a; simpl.
  - destruct (on_screen _ _); [|exact Hok]. revert Hok. session_same st.
  - destruct (on_screen _ _); [|exact Hok]. revert Hok. session_same st.
  - destruct (on_screen _ _); [|exact Hok]. revert Hok. unfold setShowInfo.
    session_same st.
  - destruct (_ && _); [|exact Hok]. revert Hok. unfold setShowInfo.
    session_same st.
  - destruct (_ || _); [|exact Hok].
    destruct Hok as [Hi Hs Hr Hf Hb He].
    unfold name_onChange, error_truthy, socket_id in *.
    destruct st; unfold_setters; simpl in *; split_cases;
      constructor; unfold socket_id; simpl; auto.
  - destruct (on_screen _ _); simpl; [|exact Hok].
    destruct (bool_decide _) eqn:Hopt; [|exact Hok].
    apply bool_decide_eq_true in Hopt.
    destruct Hok as [Hi Hs Hr Hf Hb He]. unfold setBoardSize, socket_id in *.
    destruct st; simpl in *. constructor; unfold socket_id; simpl; auto.
  - destruct (on_screen _ _); [|exact Hok]. revert Hok.
    unfold code_onChange, error_truthy. session_same st.
  - destruct (on_screen _ _); [|exact Hok]. unfold createLobby_onClick.
    destruct (length (Js.trim (playerName st)) <? 2)%nat;
      [revert Hok; session_same st|].
    assert (He : session_ok (emit (createLobby (boardSize st)) st))
      by (apply emit_session_ok; [apply (sk_boardSize _ Hok) | exact Hok]).
    revert He. generalize (emit (createLobby (boardSize st)) st).
    intros e. session_same e.
  - destruct (on_screen _ _); [|exact Hok]. unfold joinLobby_onClick.
    destruct (length (Js.trim (playerName st)) <? 2)%nat eqn:Hname;
      [revert Hok; session_same st|].
    destruct (negb _); [revert Hok; session_same st|].
    destruct (negb _); [revert Hok; session_same st|].
    apply Nat.ltb_ge in Hname.
    set (s := setLobbyCode _ (setError None st)).
    assert (Hs : session_ok s) by (revert Hok; subst s; session_same st).
    apply emit_session_ok; [|exact Hs].
    simpl. subst s. destruct st; exact Hname.
  - destruct (_ || _); [|exact Hok]. revert Hok. unfold back_onClick.
    session_same st.
Qed.

Lemma init_session_ok : session_ok init.
Proof.
  constructor; simpl; eauto.
  unfold boardSize_options. apply list_elem_of_further, list_elem_of_here.
Qed.

Lemma step_input_session_ok st ti : session_ok st -> session_ok (step_input st ti).
Proof.
  intros Hok. unfold step_input, step.
  destruct (snd ti) as [[m | a] | a]; simpl.
  - apply on_inbound_session_ok, advance_session_ok, Hok.
  - apply on_action_session_ok, advance_session_ok, Hok.
  - apply on_form_session_ok, advance_session_ok, Hok.
Qed.

Lemma reachable_session_ok st : reachable st -> session_ok st.
Proof.
  intros [trace ->]. unfold run_inputs.
  generalize init_session_ok. generalize init.
  induction trace as [|ti trace IH]; intros s Hs; simpl; [exact Hs|].
  apply IH, step_input_session_ok, Hs.
Qed.

(** ** What the timers guarantee *)

Lemma same_handle_same_timer (q : list Timer.t) x y :
  NoDup (Timer.handle <$> q) -> x ∈ q -> y ∈ q ->
  Timer.handle x = Timer.handle y -> x = y.
Proof.
  induction q as [|z q IH]; simpl.
  - intros _ Hx. apply elem_of_nil in Hx. contradiction.
  - rewrite list.NoDup_cons. intros [Hz Hq] Hx Hy Hh.
    apply elem_of_cons in Hx as [-> | Hx]; apply elem_of_cons in Hy as [-> | Hy];
      auto.
    + exfalso. apply Hz, list_elem_of_fmap. eauto.
    + exfalso. apply Hz, list_elem_of_fmap. eauto.
Qed.

(** X1. The error handler cancels before it arms: whatever has happened,
    at most one timer that clears the error is pending, and it is the one
    whose handle [errorTimeout] holds. *)
Theorem at_most_one_error_timer :
  forall (trace : list (Z * Input)) (x y : Timer.t),
    let st := run_inputs trace init in
    x ∈ timers st -> y ∈ timers st ->
    Timer.callback x = clear_error -> Timer.callback y = clear_error ->
    x = y /\ errorTimeout st = Some (Timer.handle x).
Proof.
  intros trace x y st Hx Hy Hcx Hcy.
  assert (Hok : timers_ok st) by (apply reachable_timers_ok; exists trace; reflexivity).
  destruct Hok as [_ He Hn _ _ _]. rewrite list.Forall_forall in He.
  destruct (He x Hx) as (_ & _ & Hix). destruct (He y Hy) as (_ & _ & Hiy).
  apply Hix in Hcx. apply Hiy in Hcy. split; [|exact Hcx].
  apply (same_handle_same_timer (timers st)); auto. congruence.
Qed.

(** Two errors in a row, then a banner: three timers were armed, one error
    timer is left. *)
Lemma at_most_one_error_timer_witness :
  let trace := [(100, game (recv (error_msg already_chosen)));
                (200, game (recv (error_msg already_chosen)));
                (300, game (recv (playerEliminated banner_first)))] in
  let x := Timer.mk 2 3200 clear_error in
  x ∈ timers (run_inputs trace init)
  /\ errorTimeout (run_inputs trace init) = Some (Timer.handle x).
Proof.
  intros trace x.
  assert (Hx : x ∈ timers (run_inputs trace init)) by apply list_elem_of_here.
  split; [exact Hx|].
  exact (proj2 (at_most_one_error_timer trace x x Hx Hx eq_refl eq_refl)).
Defined.

Lemma flag_not_raised_ends_by bound st st' :
  flag_not_raised st st' -> suppression_ends_by bound st ->
  suppression_ends_by bound st'.
Proof.
  intros Hkeep Hend Hup. destruct (Hkeep Hup) as (Hwas & Hin).
  apply Hend, list.Exists_exists in Hwas as (x & Hx & Hc & Hd).
  apply list.Exists_exists. exists x. auto.
Qed.

Lemma flag_not_raised_timed st st' : timed st' = timed st -> flag_not_raised st st'.
Proof.
  unfold timed. intros [= _ Htm _ _ Hflag _] Hup.
  rewrite Hflag in Hup. rewrite Htm. auto.
Qed.

Lemma flag_not_raised_banner info st :
  flag_not_raised st
    (snd (setTimeout clear_eliminationInfo 3000
            (setEliminationInfo (Some info) st))).
Proof.
  unfold flag_not_raised, setTimeout. destruct st; unfold_setters; simpl.
  intros Hup. split; [exact Hup|]. intros x Hx _. apply elem_of_enqueue_old, Hx.
Qed.

Lemma on_inbound_flag_not_raised m st : flag_not_raised st (on_inbound m st).
Proof.
  destruct m; simpl;
    try apply flag_not_raised_banner;
    try (apply flag_not_raised_timed;
         unfold on_connect, socket_id, on_playerList, on_gameStarted,
           on_numberEliminated, on_gameOver, on_lobbyCreated, on_lobbyJoined,
           on_resetNumbers, on_lobbyReset;
         timed_same st).
  (* error: dropped while the flag is up, and it does not raise the flag *)
  unfold on_error. destruct (justPickedNumber st) eqn:Hflag.
  - intros _. auto.
  - intros Hup. exfalso. revert Hup. unfold setTimeout, clearTimeout.
    destruct st as [? ? ? ? ? ? ? ? ? ? ? ? ? ? ? ? et ? ? ? ? ?].
    unfold_setters; simpl in *. subst. destruct et; simpl; discriminate.
Qed.

Lemma on_form_timed a st : timed (on_form a st) = timed st.
Proof.
  destruct a; simpl;
    repeat match goal with
           | |- context [on_screen ?s st] => destruct (on_screen s st); simpl
           | |- context [bool_decide ?P] => destruct (bool_decide P); simpl
           end;
    try reflexivity;
    unfold name_onChange, code_onChange, createLobby_onClick,
      joinLobby_onClick, back_onClick, error_truthy, emit;
    destruct st; unfold_setters; simpl in *; split_cases; reflexivity.
Qed.

Lemma step_input_flag_not_raised st ti :
  calls_handleNumberSelect st ti = false ->
  flag_not_raised (advance (fst ti) st) (step_input st ti).
Proof.
  unfold calls_handleNumberSelect, step_input, step.
  destruct ti as [t [[m | a] | a]]; simpl.
  - intros _. apply on_inbound_flag_not_raised.
  - destruct a; simpl; intros Hcall; apply flag_not_raised_timed.
    + rewrite Hcall. reflexivity.
    + destruct (_ && _); [|reflexivity]. unfold startGame_onClick.
      destruct (everyone_selected _); [apply emit_timed | reflexivity].
    + destruct (_ && _); [|reflexivity]. unfold handleNumberElimination.
      destruct (_ && _); [apply emit_timed | reflexivity].
    + destruct (on_screen _ _); [apply emit_timed | reflexivity].
    + destruct (on_screen _ _); [|reflexivity]. unfold handleMainMenu.
      timed_same (advance t st).
  - intros _. apply flag_not_raised_timed, on_form_timed.
Qed.

Lemma advance_ends_by bound t st :
  timers_sorted st -> suppression_ends_by bound st ->
  suppression_ends_by bound (advance t st).
Proof.
  intros Hs Hend. unfold suppression_ends_by. rewrite advance_flag. intros Hup.
  apply fire_due_flag_was_up in Hup as Hwas.
  apply Hend, list.Exists_exists in Hwas as (x & Hx & Hc & Hd).
  apply list.Exists_exists. exists x.
  destruct (Z_le_gt_dec (Timer.due x) t) as [Hle | Hgt].
  - rewrite (fire_due_lowers_flag t _ st x Hs Hx Hle Hc) in Hup. discriminate.
  - split; [|auto]. rewrite advance_timers.
    apply fire_due_keeps_pending; [exact Hx | lia].
Qed.

Lemma no_selection_ends_by bound trace st :
  timers_ok st -> no_selection trace st -> suppression_ends_by bound st ->
  timers_ok (run_inputs trace st)
  /\ suppression_ends_by bound (run_inputs trace st).
Proof.
  revert st; induction trace as [|ti trace IH]; intros st Hok Hquiet Hend;
    simpl; [auto|].
  destruct Hquiet as (Hcall & Hquiet).
  apply IH; [apply step_input_timers_ok, Hok | exact Hquiet |].
  eapply flag_not_raised_ends_by; [apply step_input_flag_not_raised, Hcall|].
  apply advance_ends_by; [apply (tk_sorted _ Hok) | exact Hend].
Qed.

(** X2. Suppression ends 500 ms after the last selection. Take any state
    the client reaches, and let it go on with any inputs among which none
    makes the number pad call [handleNumberSelect]: from 500 ms after the
    time of that state, the flag is down and an error that arrives is
    displayed. The state may be the one right after the last call, so no
    error is dropped more than 500 ms after the last call of
    [handleNumberSelect], whatever else has happened since. *)
Theorem no_suppression_500ms_after_last_selection :
  forall (before after : list (Z * Input)) (t : Z) (message : Js.str),
    let called := run_inputs before init in
    no_selection after called ->
    now called + 500 <= t ->
    let st := run_inputs after called in
    justPickedNumber (advance t st) = false
    /\ error (step st (t, recv (error_msg message))) = Some message.
Proof.
  intros before after t message called Hquiet Ht st.
  assert (Hok0 : timers_ok called)
    by (apply reachable_timers_ok; exists before; reflexivity).
  destruct (no_selection_ends_by (now called + 500) after called Hok0 Hquiet
              (tk_flag _ Hok0)) as (Hok & Hend).
  fold st in Hok, Hend.
  assert (Hdown : justPickedNumber (advance t st) = false).
  { rewrite advance_flag.
    destruct (justPickedNumber st) eqn:Hflag; [|apply fire_due_flag_down, Hflag].
    apply Hend, list.Exists_exists in Hflag as (x & Hx & Hc & Hd).
    apply (fire_due_lowers_flag t _ st x); auto; [apply (tk_sorted _ Hok) | lia]. }
  split; [exact Hdown|].
  unfold step; simpl. unfold on_error. rewrite Hdown.
  generalize (advance t st); intros s. unfold setTimeout, clearTimeout.
  destruct s as [? ? ? ? ? ? ? ? ? ? ? ? ? ? ? ? et ? ? ? ? ?].
  unfold_setters; simpl. destruct et; reflexivity.
Qed.

(** A selection at 1000 ms; then a roster that shows it, a click where the
    pad used to be and a message of the server, none of which is a call of
    the handler: an error at 1500 ms is displayed. *)
Lemma no_suppression_500ms_after_last_selection_witness :
  let before := [(0, game (recv (connect sA)));
                 (40, game (recv (lobbyJoined 10)));
                 (50, game (recv (playerList [Player.mk Al None false None sA])));
                 (1000, game (user (click_select 3)))] in
  let after := [(1100, game (recv (playerList
                                     [Player.mk Al (Some 3) false None sA])));
                (1200, game (user (click_select 5)));
                (1300, game (recv (youWon 1 2 3)))] in
  justPickedNumber (run_inputs after (run_inputs before init)) = true
  /\ justPickedNumber
       (advance 1500 (run_inputs after (run_inputs before init))) = false
  /\ error (step (run_inputs after (run_inputs before init))
              (1500, recv (error_msg already_chosen)))
     = Some already_chosen.
Proof.
  intros before after. split; [reflexivity|].
  refine (no_suppression_500ms_after_last_selection before after 1500
            already_chosen _ _).
  - vm_compute. auto.
  - vm_compute. discriminate.
Defined.

(** X3. No banner outlives 3000 ms: in every state the client reaches, the
    elimination banner, if there is one, is gone once the clock has moved
    on by 3000 ms. *)
Theorem banner_never_outlives_3000ms :
  forall (trace : list (Z * Input)) (t : Z),
    let st := run_inputs trace init in
    now st + 3000 <= t ->
    eliminationInfo (advance t st) = None.
Proof.
  intros trace t st Ht.
  assert (Hok : timers_ok st) by (apply reachable_timers_ok; exists trace; reflexivity).
  rewrite advance_banner.
  destruct (eliminationInfo st) as [b|] eqn:Hb; [|apply fire_due_no_banner, Hb].
  assert (Hup : is_Some (eliminationInfo st)) by (rewrite Hb; eauto).
  apply (tk_banner _ Hok), list.Exists_exists in Hup as (x & Hx & Hc & Hd).
  apply (fire_due_clears_banner t _ st x); auto; [apply (tk_sorted _ Hok) | lia].
Qed.

Lemma banner_never_outlives_3000ms_witness :
  let trace := [(2000, game (recv (youWon 1 3 7)));
                (4000, game (recv (playerEliminated banner_second)))] in
  eliminationInfo (run_inputs trace init) = Some banner_second
  /\ eliminationInfo (advance 7000 (run_inputs trace init)) = None.
Proof.
  intros trace. split; [reflexivity|].
  refine (banner_never_outlives_3000ms trace 7000 _).
  vm_compute. discriminate.
Defined.

Lemma run_callback_error cb st :
  cb <> clear_error -> error (run_callback cb st) = error st.
Proof. intros H. destruct cb; try contradiction; open_state st; reflexivity. Qed.

(** Only a due [clear_error] timer removes the error. *)
Lemma fire_due_error t q st :
  (forall x, x ∈ q -> Timer.due x <= t -> Timer.callback x <> clear_error) ->
  error (fire_due t q st) = error st.
Proof.
  revert st; induction q as [|x q IH]; intros st Hq; simpl.
  - open_state st; reflexivity.
  - destruct (Timer.due x <=? t) eqn:Hd.
    + rewrite IH by (intros y Hy; apply Hq; apply list_elem_of_further, Hy).
      rewrite run_callback_error
        by (apply Hq; [apply list_elem_of_here | lia]).
      open_state st; reflexivity.
    + open_state st; reflexivity.
Qed.

Lemma run_callback_no_error cb st :
  error st = None -> error (run_callback cb st) = None.
Proof. destruct cb; open_state st; auto. Qed.

Lemma fire_due_no_error t q st :
  error st = None -> error (fire_due t q st) = None.
Proof.
  revert st; induction q as [|x q IH]; intros st H; simpl.
  - open_state st; exact H.
  - destruct (Timer.due x <=? t); [|open_state st; exact H].
    apply IH, run_callback_no_error. open_state st; exact H.
Qed.

Lemma fire_due_clears_error t q st x :
  StronglySorted (fun a b => Timer.due a <= Timer.due b) q ->
  x ∈ q -> Timer.due x <= t -> Timer.callback x = clear_error ->
  error (fire_due t q st) = None.
Proof.
  intros Hs; revert st; induction Hs as [|y q Hq IH Hy]; intros st Hx Hd Hc.
  - apply elem_of_nil in Hx. contradiction.
  - simpl. apply elem_of_cons in Hx as [<- | Hx].
    + replace (Timer.due x <=? t) with true by (symmetry; apply Z.leb_le, Hd).
      apply fire_due_no_error. rewrite Hc. open_state st; reflexivity.
    + rewrite List.Forall_forall in Hy.
      apply list_elem_of_In in Hx as Hx'. apply Hy in Hx'.
      replace (Timer.due y <=? t) with true by (symmetry; apply Z.leb_le; lia).
      apply IH; assumption.
Qed.

Lemma advance_error t st : error (advance t st) = error (fire_due t (timers st) st).
Proof. unfold advance. destruct (fire_due t (timers st) st); reflexivity. Qed.

Lemma on_error_shown message st :
  justPickedNumber st = false ->
  error (on_error message st) = Some message
  /\ errorTimeout (on_error message st) = Some (nextTimer st)
  /\ Timer.mk (nextTimer st) (now st + 3000) clear_error
       ∈ timers (on_error message st).
Proof.
  intros Hflag. unfold on_error, setTimeout, clearTimeout. rewrite Hflag.
  destruct st as [? ? ? ? ? ? ? ? ? ? ? ? ? ? ? ? et ? ? ? ? ?].
  unfold_setters; simpl. destruct et; simpl; repeat split; apply elem_of_enqueue.
Qed.

(** X4. A server error that is displayed stays for 3000 ms, not less, not
    more: the timers of earlier errors are cancelled, so none of them
    removes it early, and its own timer removes it (nothing else happening
    in between). *)
Theorem error_displayed_for_3000ms :
  forall (trace : list (Z * Input)) (message : Js.str) (t : Z),
    let st := run_inputs trace init in
    justPickedNumber st = false ->
    let shown := on_inbound (error_msg message) st in
    error shown = Some message
    /\ (t < now st + 3000 -> error (advance t shown) = Some message)
    /\ (now st + 3000 <= t -> error (advance t shown) = None).
Proof.
  intros trace message t st Hflag shown.
  assert (Hok : timers_ok st) by (apply reachable_timers_ok; exists trace; reflexivity).
  assert (Hok' : timers_ok shown) by (apply on_error_timers_ok, Hok).
  destruct (on_error_shown message st Hflag) as (Herr & Het & Hin).
  fold (on_inbound (error_msg message) st) in Herr, Het, Hin. fold shown in Herr, Het, Hin.
  set (tm := Timer.mk (nextTimer st) (now st + 3000) clear_error) in *.
  split; [exact Herr|]. split; intros Ht; rewrite advance_error.
  - rewrite fire_due_error; [exact Herr|].
    intros x Hx Hdue Hcb.
    destruct Hok' as [_ He Hn _ _ _]. rewrite list.Forall_forall in He.
    destruct (He x Hx) as (_ & _ & Hiff). apply Hiff in Hcb.
    assert (x = tm).
    { apply (same_handle_same_timer (timers shown)); auto.
      rewrite Het in Hcb. injection Hcb as <-. reflexivity. }
    subst x. simpl in Hdue. lia.
  - apply (fire_due_clears_error t _ shown tm);
      [apply (tk_sorted _ Hok') | exact Hin | simpl; lia | reflexivity].
Qed.

Lemma error_displayed_for_3000ms_witness :
  let trace := [(100, game (recv (error_msg already_chosen)));
                (2000, game (recv resetNumbers))] in
  let shown := on_inbound (error_msg already_chosen) (run_inputs trace init) in
  justPickedNumber (run_inputs trace init) = false
  /\ error (advance 4999 shown) = Some already_chosen
  /\ error (advance 5000 shown) = None.
Proof.
  intros trace shown. split; [reflexivity|].
  pose proof (error_displayed_for_3000ms trace already_chosen 4999 eq_refl)
    as (_ & Hstay & _).
  pose proof (error_displayed_for_3000ms trace already_chosen 5000 eq_refl)
    as (_ & _ & Hgone).
  split; [apply Hstay | apply Hgone]; vm_compute; congruence.
Defined.

(** X5. The message of [resetNumbers] has no timer of its own. If no error
    timer is pending, it stays however far the clock moves; if the timer of
    an earlier server error is pending, that timer removes it. *)
Theorem duplicate_pick_message_has_no_timer :
  forall (trace : list (Z * Input)) (t : Z),
    let st := run_inputs trace init in
    let shown := on_inbound resetNumbers st in
    let text :=
      Js.of_ascii "All players have chosen the same number. Pick a new number." in
    error shown = Some text
    /\ timers shown = timers st
    /\ ((forall x, x ∈ timers st -> Timer.callback x <> clear_error) ->
        error (advance t shown) = Some text)
    /\ (forall x, x ∈ timers st -> Timer.callback x = clear_error ->
                  Timer.due x <= t -> error (advance t shown) = None).
Proof.
  intros trace t st shown text.
  assert (Hok : timers_ok st) by (apply reachable_timers_ok; exists trace; reflexivity).
  assert (Herr : error shown = Some text)
    by (subst shown; simpl; unfold on_resetNumbers; destruct st; reflexivity).
  assert (Htm : timers shown = timers st)
    by (subst shown; simpl; unfold on_resetNumbers; destruct st; reflexivity).
  split; [exact Herr|]. split; [exact Htm|].
  rewrite advance_error, Htm. split.
  - intros Hnone. rewrite fire_due_error; [exact Herr|].
    intros x Hx _. apply Hnone, Hx.
  - intros x Hx Hcb Hdue.
    apply (fire_due_clears_error t _ shown x); auto. apply (tk_sorted _ Hok).
Qed.

(** An error at 100 ms, the duplicate-pick message at 2000 ms: the message is
    gone at 3100 ms. Without the earlier error it is still there. *)
Example duplicate_pick_message_cleared_by_stale_timer :
  error (advance 3100
           (run_inputs [(100, game (recv (error_msg already_chosen)));
                        (2000, game (recv resetNumbers))] init)) = None
  /\ is_Some (error (advance 1000000
                       (run_inputs [(2000, game (recv resetNumbers))] init))).
Proof. split; [reflexivity | eexists; reflexivity]. Qed.

(** ** What is never done *)

(** X6. [gameResult] is never set to anything but [null], so that the
    game-over screen never shows the personal headline (the one that looks
    the local player up by name): its headline is the plain one, or none
    while [gameOverInfo] is missing. *)
Theorem personal_headline_never_shown :
  forall trace : list (Z * Input),
    let st := run_inputs trace init in
    gameResult st = None
    /\ gameOver_headline st
       = match gameOverInfo st with
         | Some _ => headline_game_over
         | None => headline_none
         end.
Proof.
  intros trace st.
  assert (Hr : gameResult st = None)
    by (apply sk_result, reachable_session_ok; exists trace; reflexivity).
  split; [exact Hr|]. unfold gameOver_headline. rewrite Hr. reflexivity.
Qed.

(** X7. Whatever the user and the server do, every [createLobby] the client
    has sent carries one of the ten board sizes on offer, and every
    [joinLobby], sent from the join form or automatically after
    [lobbyCreated], carries a name that has two characters at least once
    trimmed. *)
Theorem sent_lobby_messages_are_valid :
  forall (trace : list (Z * Input)) (m : Outbound),
    m ∈ emitted (run_inputs trace init) ->
    match m with
    | createLobby size =>
        exists k : Z, 1 <= k <= 10 /\ size = 10 * k
    | joinLobby _ name => (2 <= length (Js.trim name))%nat
    | _ => True
    end.
Proof.
  intros trace m Hm.
  assert (Hok : session_ok (run_inputs trace init))
    by (apply reachable_session_ok; exists trace; reflexivity).
  destruct Hok as [_ _ _ _ _ He]. rewrite list.Forall_forall in He.
  specialize (He m Hm). destruct m; simpl in He; auto.
  unfold boardSize_options in He. exists (boardSize0 / 10).
  repeat (apply elem_of_cons in He as [-> | He];
          [split; [split|]; vm_compute; congruence|]).
  apply elem_of_nil in He. contradiction.
Qed.

Lemma sent_lobby_messages_are_valid_witness :
  let trace := [(0, game (recv (connect sA)));
                (10, form click_create_game);
                (20, form (type_name Al));
                (30, form (choose_boardSize 50));
                (40, form click_create_lobby);
                (90, game (recv (lobbyCreated (Js.of_ascii "K3QZ7"))))] in
  emitted (run_inputs trace init)
  = [createLobby 50; joinLobby (Js.of_ascii "K3QZ7") Al]
  /\ (2 <= length (Js.trim Al))%nat.
Proof.
  intros trace. split; [reflexivity|].
  apply (sent_lobby_messages_are_valid trace (joinLobby (Js.of_ascii "K3QZ7") Al)).
  vm_compute. apply list_elem_of_further, list_elem_of_here.
Defined.

(** ** The forms *)

Lemma render_same st st' :
  showStartScreen st' = showStartScreen st -> lobbyStep st' = lobbyStep st ->
  gameOver st' = gameOver st -> gameState st' = gameState st ->
  render st' = render st.
Proof. unfold render. intros -> -> -> ->. reflexivity. Qed.

Lemma render_untimed st st' : untimed st' = untimed st -> render st' = render st.
Proof.
  unfold untimed. intros [= ? ? Hg Ho ? ? Hs ? ? ? Hl ? ? ? ? ? ?].
  apply render_same; assumption.
Qed.

Lemma advance_render t st : render (advance t st) = render st.
Proof. apply render_untimed, advance_untimed. Qed.

Lemma createLobby_onClick_valid st :
  (2 <= length (Js.trim (playerName st)))%nat -> is_Some (socketRef st) ->
  let st' := createLobby_onClick st in
  emitted st' = emitted st ++ [createLobby (boardSize st)]
  /\ lobbyStep st' = creating
  /\ playerNameRef st' = playerNameRef st
  /\ socketRef st' = socketRef st
  /\ showStartScreen st' = showStartScreen st.
Proof.
  intros Hname [sock Hsock]. unfold createLobby_onClick, emit.
  apply Nat.ltb_ge in Hname. rewrite Hname, Hsock.
  destruct st; unfold_setters; simpl in *. repeat split. exact Hsock.
Qed.

Lemma on_lobbyCreated_valid code st :
  (2 <= length (Js.trim (playerNameRef st)))%nat -> is_Some (socketRef st) ->
  let st' := on_lobbyCreated code st in
  emitted st' = emitted st ++ [joinLobby code (playerNameRef st)]
  /\ showStartScreen st' = false
  /\ lobbyCode st' = Some code.
Proof.
  intros Hname [sock Hsock]. unfold on_lobbyCreated, emit.
  apply Nat.leb_le in Hname.
  destruct st as [? ? ? ? ? ? ? ? ? ? ? ? ? sr pnr ? ? ? ? ? ? ?].
  unfold_setters; simpl in *. subst sr.
  destruct (length (Js.trim pnr)) as [|[|k]]; try discriminate.
  simpl. repeat split.
Qed.

(** X8. A lobby created through the form is joined without further ado:
    from the create form with a valid name, Create Lobby sends [createLobby]
    with the chosen board size, and the [lobbyCreated] that answers it makes
    the client send [joinLobby] with the received code and the name as
    typed, record the code and leave the start screens. *)
Theorem created_lobby_is_joined :
  forall (trace : list (Z * Input)) (t1 t2 : Z) (code : Js.str),
    let st := run_inputs trace init in
    render st = CreateScreen ->
    (2 <= length (Js.trim (playerName st)))%nat ->
    let st' := run_inputs [(t1, form click_create_lobby);
                           (t2, game (recv (lobbyCreated code)))] st in
    emitted st'
    = emitted st ++ [createLobby (boardSize st); joinLobby code (playerName st)]
    /\ lobbyCode st' = Some code
    /\ showStartScreen st' = false.
Proof.
  intros trace t1 t2 code st Hscreen Hname st'.
  assert (Hok : session_ok st) by (apply reachable_session_ok; exists trace; reflexivity).
  destruct Hok as [_ Hsock _ Href _ _].
  subst st'. unfold run_inputs; simpl. unfold step_input, step; simpl.
  set (a1 := advance t1 st).
  assert (Hun1 : untimed a1 = untimed st) by apply advance_untimed.
  pose proof (render_untimed _ _ Hun1) as Hr1.
  unfold untimed in Hun1.
  injection Hun1 as Hpn Hbs _ _ _ _ _ _ _ _ _ Hsr Hpr _ _ _ Hem.
  unfold on_screen. rewrite Hr1, Hscreen.
  rewrite bool_decide_eq_true_2 by reflexivity.
  destruct (createLobby_onClick_valid a1) as (He1 & _ & Hp1 & Hs1 & _);
    [rewrite Hpn; exact Hname | rewrite Hsr; exact Hsock |].
  set (s1 := createLobby_onClick a1) in *.
  set (a2 := advance t2 s1).
  assert (Hun2 : untimed a2 = untimed s1) by apply advance_untimed.
  unfold untimed in Hun2.
  injection Hun2 as _ _ _ _ _ _ _ _ _ _ _ Hsr2 Hpr2 _ _ _ Hem2.
  destruct (on_lobbyCreated_valid code a2) as (He2 & Hshow & Hcode);
    [rewrite Hpr2, Hp1, Hpr, Href; exact Hname
    | rewrite Hsr2, Hs1, Hsr; exact Hsock |].
  split; [|split; assumption].
  rewrite He2, Hem2, He1, Hem, Hpr2, Hp1, Hpr, Href, Hbs, <- app_assoc.
  reflexivity.
Qed.

Lemma created_lobby_is_joined_witness :
  let trace := [(0, game (recv (connect sA)));
                (10, form click_create_game);
                (20, form (type_name (Js.of_ascii " Al ")))] in
  let code := Js.of_ascii "K3QZ7" in
  render (run_inputs trace init) = CreateScreen
  /\ emitted (run_inputs [(40, form click_create_lobby);
                          (90, game (recv (lobbyCreated code)))]
                (run_inputs trace init))
     = [createLobby 20; joinLobby code (Js.of_ascii " Al ")].
Proof.
  intros trace code. split; [reflexivity|].
  refine (proj1 (created_lobby_is_joined trace 40 90 code eq_refl _)).
  vm_compute. lia.
Defined.

Lemma is_lobby_code_spec (c : Js.str) :
  is_lobby_code c = true
  <-> length c = 5%nat
      /\ forall u, u ∈ c -> (65 <= u <= 90 \/ 48 <= u <= 57)%N.
Proof.
  unfold is_lobby_code. rewrite andb_true_iff, Nat.eqb_eq, forallb_forall.
  split; intros [Hl Hc]; (split; [exact Hl|]); intros u Hu.
  - apply list_elem_of_In, Hc in Hu. unfold is_upper_alnum in Hu.
    apply orb_true_iff in Hu as [Hu | Hu]; apply andb_true_iff in Hu as [H1 H2];
      apply N.leb_le in H1, H2; lia.
  - apply list_elem_of_In, Hc in Hu. unfold is_upper_alnum.
    apply orb_true_iff.
    destruct Hu as [[H1 H2] | [H1 H2]]; [left | right];
      apply andb_true_iff; split; apply N.leb_le; assumption.
Qed.

(** X9. Join Lobby on the join form. Either a [joinLobby] is sent, and then
    the name has two characters at least once trimmed, the code sent is the
    trimmed input, made of exactly five capital letters or digits, it is
    recorded as the lobby code and the error is cleared; or nothing is sent
    and nothing recorded, and the error says what is wrong, the name being
    checked before the length of the code and the length before its
    characters (or the socket is missing). The name goes out as typed, not
    trimmed. *)
Theorem joinLobby_click_validates :
  forall st : Client,
    let st' := joinLobby_onClick st in
    let code := Js.trim (joinCodeInput st) in
    let name_ok := (2 <= length (Js.trim (playerName st)))%nat in
    let code_ok :=
      forall u, u ∈ code -> (65 <= u <= 90 \/ 48 <= u <= 57)%N in
    render st' = render st
    /\ (emitted st' = emitted st ++ [joinLobby code (playerName st)]
        /\ name_ok /\ length code = 5%nat /\ code_ok
        /\ lobbyCode st' = Some code /\ error st' = None
        \/ emitted st' = emitted st
           /\ (lobbyCode st' = lobbyCode st
               /\ (error st' = Some name_too_short /\ ~ name_ok
                   \/ error st' = Some code_wrong_length
                      /\ name_ok /\ length code <> 5%nat
                   \/ error st' = Some code_not_alphanumeric
                      /\ name_ok /\ length code = 5%nat /\ ~ code_ok)
               \/ socketRef st = None)).
Proof.
  intros st st' code name_ok code_ok.
  assert (Hrender : render st' = render st).
  { subst st'. unfold joinLobby_onClick, emit.
    apply render_same; destruct st; unfold_setters; simpl in *; split_cases;
      reflexivity. }
  split; [exact Hrender|].
  subst st'. unfold joinLobby_onClick.
  destruct (length (Js.trim (playerName st)) <? 2)%nat eqn:Hname.
  { right. apply Nat.ltb_lt in Hname.
    split; [destruct st; reflexivity|]. left.
    split; [destruct st; reflexivity|]. left.
    split; [destruct st; reflexivity|]. subst name_ok. lia. }
  apply Nat.ltb_ge in Hname. fold code.
  destruct (length code =? 5)%nat eqn:Hlen; simpl.
  2:{ right. apply Nat.eqb_neq in Hlen.
      split; [destruct st; reflexivity|]. left.
      split; [destruct st; reflexivity|]. right. left.
      split; [destruct st; reflexivity|]. auto. }
  apply Nat.eqb_eq in Hlen.
  destruct (is_lobby_code code) eqn:Hcode; simpl.
  2:{ right. 
      split; [destruct st; reflexivity|]. left.
      split; [destruct st; reflexivity|]. right. right.
      split; [destruct st; reflexivity|].
      split; [exact Hname|]. split; [exact Hlen|].
      intros Hok. assert (is_lobby_code code = true)
        by (apply is_lobby_code_spec; auto).
      congruence. }
  apply is_lobby_code_spec in Hcode as [_ Hcode].
  replace (joinCodeInput (setError None st)) with (joinCodeInput st)
    by (destruct st; reflexivity).
  replace (joinCodeInput (setLobbyCode (Some (Js.trim (joinCodeInput st)))
                            (setError None st)))
    with (joinCodeInput st) by (destruct st; reflexivity).
  fold code. unfold emit.
  destruct (socketRef st) as [sock|] eqn:Hsock.
  - left.
    replace (socketRef (setLobbyCode (Some code) (setError None st)))
      with (Some sock) by (destruct st; simpl in *; congruence).
    destruct st; unfold_setters; simpl in *. repeat split; auto.
  - right.
    replace (socketRef (setLobbyCode (Some code) (setError None st)))
      with (@None Socket.t) by (destruct st; simpl in *; congruence).
    split; [destruct st; reflexivity | right; reflexivity].
Qed.

(** ** Leaving and replaying *)

(** X10. Main Menu. [handleMainMenu] announces the departure with one
    [leaveLobby], brings the client back to the menu with an empty name, no
    lobby code and the default snapshot, and keeps the connection and the
    captured identity. It does not touch the error, the banner or the
    timers: an error still displayed comes along, the menu does not show
    it, the create form does. *)
Theorem main_menu_resets_session_not_notifications :
  forall st : Client,
    let st' := handleMainMenu st in
    render st' = MenuScreen
    /\ gameState st' = initialGameState
    /\ playerName st' = [] /\ playerNameRef st' = []
    /\ lobbyCode st' = None /\ gameOver st' = false
    /\ emitted st' = emitted (emit leaveLobby st)
    /\ socketRef st' = socketRef st /\ mySocketId st' = mySocketId st
    /\ error st' = error st /\ eliminationInfo st' = eliminationInfo st
    /\ timed st' = timed st
    /\ render (on_form click_create_game st') = CreateScreen
    /\ error (on_form click_create_game st') = error st.
Proof.
  intros st st'. subst st'.
  unfold handleMainMenu, emit.
  destruct st as [? ? ? ? ? ? ? ? ? ? ? ? ? sr ? ? ? ? ? ? ? ?].
  destruct sr; unfold_setters; simpl; repeat split.
Qed.

(** X11. Replaying. On [gameOver] the results are kept as received and the
    game-over screen is shown; Play Again sends [playerReadyForReplay] and
    changes nothing else, the client staying on that screen; it is
    [lobbyReset] that brings the lobby back, with the roster, the numbers
    and the board size of its payload, no turn holder and the round not
    started. *)
Theorem replay_waits_for_lobbyReset :
  forall (st : Client) (info : GameOverInfo.t)
         (players : list Player.t) (numbers : list Z) (size : Z),
    showStartScreen st = false ->
    let over := on_inbound (gameOver_msg info) st in
    let ready := on_action click_playAgain over in
    let back := on_inbound (lobbyReset players numbers size) ready in
    (render over = GameOverScreen /\ gameOverInfo over = Some info
     /\ gameState over = gameState st)
    /\ (render ready = GameOverScreen
        /\ ready = emit playerReadyForReplay over)
    /\ (render back = LobbyScreen
        /\ gameOverInfo back = None
        /\ GameState.players (gameState back) = players
        /\ GameState.numbers (gameState back) = numbers
        /\ GameState.boardSize (gameState back) = size
        /\ GameState.currentTurn (gameState back) = None
        /\ GameState.gameStarted (gameState back) = false).
Proof.
  intros st info players numbers size Hshow over ready back.
  assert (Hover : render over = GameOverScreen /\ gameOverInfo over = Some info
                  /\ gameState over = gameState st).
  { subst over. simpl. unfold on_gameOver, render.
    destruct st; unfold_setters; simpl in *. subst. repeat split. }
  split; [exact Hover|]. destruct Hover as (Hr & _ & _).
  assert (Hready : ready = emit playerReadyForReplay over).
  { subst ready. simpl. unfold on_screen. rewrite Hr.
    rewrite bool_decide_eq_true_2 by reflexivity. reflexivity. }
  split.
  - split; [|exact Hready]. rewrite Hready.
    rewrite <- Hr. unfold emit.
    apply render_same; destruct over; unfold_setters; simpl; split_cases;
      reflexivity.
  - subst back. simpl. unfold on_lobbyReset, render.
    destruct ready; unfold_setters; simpl. repeat split.
Qed.

Lemma replay_waits_for_lobbyReset_witness :
  let info := GameOverInfo.mk [Placement.mk (Js.of_ascii "Alice") 7 1;
                               Placement.mk (Js.of_ascii "Bob") 3 2] in
  showStartScreen board = false
  /\ gameOverInfo (on_inbound (gameOver_msg info) board) = Some info
  /\ render (on_action click_playAgain (on_inbound (gameOver_msg info) board))
     = GameOverScreen.
Proof.
  intros info. split; [reflexivity|].
  pose proof (replay_waits_for_lobbyReset board info [] one_to_ten 10 eq_refl)
    as ((_ & Hinfo & _) & (Hready & _) & _).
  split; [exact Hinfo | exact Hready].
Defined.

(** X12. The snapshot of the session is never changed by the client on its
    own: no click on a game control other than Main Menu, nothing done on
    the forms and no timer changes [gameState]; in particular the client
    never starts a round or takes a number off the board before the server
    says so. *)
Theorem snapshot_changed_by_server_only :
  forall (st : Client) (t : Z),
    (forall a : Action,
        a = click_mainMenu \/ gameState (on_action a st) = gameState st)
    /\ (forall a : FormAction, gameState (on_form a st) = gameState st)
    /\ gameState (advance t st) = gameState st.
Proof.
  intros st t. split; [|split; [|apply advance_gameState]].
  - intros a. destruct a; [right | right | right | right | left; reflexivity];
      simpl.
    + destruct (select_button_rendered number st); [|reflexivity].
      rewrite handleNumberSelect_unfold. destruct (gameOver st); [reflexivity|].
      assert (Ha : gameState (arm_suppression st) = gameState st)
        by (unfold arm_suppression, setTimeout; destruct st; reflexivity).
      destruct (me_without_number st); [|exact Ha].
      destruct (emit_frame (selectNumber number) (arm_suppression st))
        as (_ & _ & _ & -> & _). exact Ha.
    + destruct (_ && _); [|reflexivity]. unfold startGame_onClick.
      destruct (everyone_selected st); [|reflexivity]. apply emit_frame.
    + destruct (_ && _); [|reflexivity]. unfold handleNumberElimination.
      destruct (_ && _); [|reflexivity]. apply emit_frame.
    + destruct (on_screen _ _); [|reflexivity]. apply emit_frame.
  - intros a. destruct a; simpl;
      repeat match goal with
             | |- context [on_screen ?s st] => destruct (on_screen s st); simpl
             | |- context [bool_decide ?P] => destruct (bool_decide P); simpl
             end;
      try reflexivity;
      unfold name_onChange, code_onChange, createLobby_onClick,
        joinLobby_onClick, back_onClick, error_truthy, emit;
      destruct st; unfold_setters; simpl in *; split_cases; reflexivity.
Qed.

(** ** What is sent *)

Lemma emit_grows m st :
  emitted (emit m st) = emitted st \/ emitted (emit m st) = emitted st ++ [m].
Proof. rewrite emitted_emit. destruct (socketRef st); auto. Qed.

Lemma on_inbound_emitted m st :
  emitted (on_inbound m st) = emitted st
  \/ exists code, m = lobbyCreated code
                  /\ emitted (on_inbound m st)
                     = emitted st ++ [joinLobby code (playerNameRef st)].
Proof.
  destruct m; simpl;
    try (left;
         unfold on_connect, on_playerList, on_gameStarted, on_numberEliminated,
           on_error, on_youWon, on_youLost, on_playerEliminated, on_gameOver,
           on_lobbyJoined, on_resetNumbers, on_lobbyReset, setTimeout,
           clearTimeout;
         destruct st; unfold_setters; simpl; split_cases; reflexivity).
  unfold on_lobbyCreated, emit.
  destruct st as [? ? ? ? ? ? ? ? ? ? ? ? ? sr pnr ? ? ? ? ? ? ?].
  unfold_setters; simpl.
  destruct (length (Js.trim pnr)) as [|[|k]]; simpl; auto.
  destruct sr; simpl; eauto.
Qed.

Lemma on_action_emitted a st :
  emitted (on_action a st) = emitted st
  \/ exists m, emitted (on_action a st) = emitted st ++ [m].
Proof.
  destruct a; simpl.
  - destruct (select_button_rendered number st); [|auto].
    destruct (handleNumberSelect_emitted number st) as [(H & _) | H]; eauto.
  - destruct (_ && _); [|auto]. unfold startGame_onClick.
    destruct (everyone_selected st); [|auto].
    destruct (emit_grows startGame st); eauto.
  - destruct (_ && _); [|auto]. unfold handleNumberElimination.
    destruct (_ && _); [|auto].
    destruct (emit_grows (eliminateNumber number) st); eauto.
  - destruct (on_screen _ _); [|auto].
    destruct (emit_grows playerReadyForReplay st); eauto.
  - destruct (on_screen _ _); [|auto].
    replace (emitted (handleMainMenu st)) with (emitted (emit leaveLobby st))
      by (unfold handleMainMenu; destruct (emit leaveLobby st); reflexivity).
    destruct (emit_grows leaveLobby st); eauto.
Qed.

Lemma on_form_emitted a st :
  emitted (on_form a st) = emitted st
  \/ exists m, emitted (on_form a st) = emitted st ++ [m].
Proof.
  destruct a; simpl;
    repeat match goal with
           | |- context [on_screen ?s st] => destruct (on_screen s st); simpl
           | |- context [bool_decide ?P] => destruct (bool_decide P); simpl
           end;
    auto;
    unfold name_onChange, code_onChange, createLobby_onClick,
      joinLobby_onClick, back_onClick, error_truthy, emit, setShowInfo,
      setBoardSize;
    destruct st; unfold_setters; simpl in *; split_cases; eauto.
Qed.

(** X13. The channel to the server. Every input, whenever it occurs,
    leaves what was sent before as it is and adds one message at most;
    timers add none, and of the server's messages only [lobbyCreated] makes
    the client send something (the automatic [joinLobby]). *)
Theorem one_message_per_input_at_most :
  forall (st : Client) (ti : Z * Input),
    let st' := step_input st ti in
    (emitted st' = emitted st \/ exists m, emitted st' = emitted st ++ [m])
    /\ emitted (advance (fst ti) st) = emitted st
    /\ (forall m, snd ti = game (recv m) ->
                  emitted st' = emitted st
                  \/ exists code name,
                       m = lobbyCreated code
                       /\ emitted st' = emitted st ++ [joinLobby code name]).
Proof.
  intros st [t i] st'. subst st'. unfold step_input, step. simpl.
  pose proof (advance_emitted t st) as Ha.
  split; [|split; [exact Ha|]].
  - destruct i as [[m | a] | a]; simpl; rewrite <- Ha.
    + destruct (on_inbound_emitted m (advance t st)) as [H | (c & _ & H)]; eauto.
    + apply on_action_emitted.
    + apply on_form_emitted.
  - intros m ->. simpl. rewrite <- Ha.
    destruct (on_inbound_emitted m (advance t st)) as [H | (c & -> & H)]; eauto.
Qed.

(** X14. Numbers sent are numbers shown. A click on the board sends
    [eliminateNumber n] only from the board screen: the game is not over,
    the round has started, it is the local socket's turn and [n] is one of
    the numbers left; a click on the number pad sends [selectNumber n] only
    from the lobby screen, for an [n] of the pad. The handlers alone check
    neither the screen nor the number. *)
Theorem only_displayed_numbers_are_sent :
  forall (st : Client) (n : Z),
    (emitted (on_action (click_board n) st) = emitted st
     \/ emitted (on_action (click_board n) st) = emitted st ++ [eliminateNumber n]
        /\ render st = BoardScreen
        /\ gameOver st = false
        /\ GameState.gameStarted (gameState st) = true
        /\ holds_turn st
        /\ n ∈ GameState.numbers (gameState st))
    /\ (emitted (on_action (click_select n) st) = emitted st
        \/ emitted (on_action (click_select n) st) = emitted st ++ [selectNumber n]
           /\ render st = LobbyScreen
           /\ gameOver st = false
           /\ GameState.gameStarted (gameState st) = false
           /\ unpicked st
           /\ n ∈ GameState.numbers (gameState st)).
Proof.
  intros st n. split; simpl.
  - unfold board_button_rendered, board_button_disabled, on_screen.
    destruct (bool_decide (render st = BoardScreen)) eqn:Hs; simpl; [|auto].
    destruct (bool_decide (n ∈ _)) eqn:Hn; simpl; [|auto].
    destruct (my_turn st) eqn:Ht; simpl; [|auto].
    apply bool_decide_eq_true in Hs, Hn.
    assert (Hshape : gameOver st = false
                     /\ GameState.gameStarted (gameState st) = true).
    { revert Hs. unfold render.
      destruct (showStartScreen st), (lobbyStep st), (gameOver st),
        (GameState.gameStarted (gameState st)); simpl; intros [=]; auto. }
    destruct Hshape as (Hgo & Hst).
    unfold handleNumberElimination. rewrite Hst, Ht. simpl.
    destruct (emit_grows (eliminateNumber n) st) as [H | H]; [auto|].
    right. apply my_turn_spec in Ht. auto 10.
  - unfold select_button_rendered.
    destruct (on_screen LobbyScreen st) eqn:Hs; simpl; [|auto].
    destruct (me_without_number st) eqn:Hm; simpl; [|auto].
    destruct (bool_decide (n ∈ _)) eqn:Hn; simpl; [|auto].
    apply bool_decide_eq_true in Hn.
    apply on_screen_lobby_not_started in Hs as Hshape.
    destruct Hshape as (Hst & Hgo).
    apply bool_decide_eq_true in Hs.
    destruct (handleNumberSelect_emitted n st) as [(H & _ & Hu) | H]; [|auto].
    right. auto 10.
Qed.

(** ** Texts and styles *)

Lemma of_ascii_inj s1 s2 : Js.of_ascii s1 = Js.of_ascii s2 -> s1 = s2.
Proof.
  unfold Js.of_ascii. intros H.
  rewrite <- (string_of_list_ascii_of_string s1),
    <- (string_of_list_ascii_of_string s2).
  f_equal. revert H.
  generalize (list_ascii_of_string s1) (list_ascii_of_string s2).
  induction l as [|a l IH]; intros [|b l']; simpl; try discriminate; auto.
  intros [= Hab Hl]. f_equal; [|auto].
  rewrite <- (ascii_N_embedding a), <- (ascii_N_embedding b), Hab. reflexivity.
Qed.

Lemma number_to_string_inj p q : number_to_string p = number_to_string q -> p = q.
Proof.
  unfold number_to_string. intros H%of_ascii_inj.
  assert (Hint : forall z, DecimalString.NilZero.int_of_string
                             (DecimalString.NilZero.string_of_int (Z.to_int z))
                           = Some (Z.to_int z)).
  { intros z. apply DecimalString.NilZero.isi; destruct z; simpl;
      try discriminate; intros [= Hnil];
      apply (DecimalPos.Unsigned.to_uint_nonnil _ Hnil). }
  pose proof (Hint p) as Hp. rewrite H, Hint in Hp. injection Hp as Hp.
  rewrite <- (DecimalZ.of_to p), <- (DecimalZ.of_to q), Hp. reflexivity.
Qed.

Lemma suffix_th_differs (x : Js.str) (a b c : N) :
  c <> 104%N -> [a; b; c] <> x ++ Js.of_ascii "th".
Proof.
  intros Hc H. change (Js.of_ascii "th") with [116%N; 104%N] in H.
  apply (f_equal (@rev N)) in H.
  rewrite rev_app_distr in H. simpl in H. injection H as H _. congruence.
Qed.

(** X15. [getPlacementText] tells placements apart: two different
    placements, integers that a number holds exactly (between -2^53 and
    2^53), never get the same text, whether they are among the three that
    have a text of their own or not. *)
Theorem getPlacementText_injective :
  forall p q : Z,
    - 2 ^ 53 < p < 2 ^ 53 -> - 2 ^ 53 < q < 2 ^ 53 ->
    getPlacementText p = getPlacementText q -> p = q.
Proof.
  intros p q _ _. unfold getPlacementText.
  destruct (p =? 1) eqn:Hp1; [apply Z.eqb_eq in Hp1|];
    [|destruct (p =? 2) eqn:Hp2; [apply Z.eqb_eq in Hp2|];
      [|destruct (p =? 3) eqn:Hp3; [apply Z.eqb_eq in Hp3|]]];
    (destruct (q =? 1) eqn:Hq1; [apply Z.eqb_eq in Hq1|];
     [|destruct (q =? 2) eqn:Hq2; [apply Z.eqb_eq in Hq2|];
       [|destruct (q =? 3) eqn:Hq3; [apply Z.eqb_eq in Hq3|]]]);
    intros H; try congruence; try discriminate H;
    try (exfalso; revert H; apply suffix_th_differs; discriminate);
    try (exfalso; symmetry in H; revert H; apply suffix_th_differs; discriminate).
  apply app_inv_tail in H. apply number_to_string_inj, H.
Qed.

Lemma getPlacementText_injective_witness :
  getPlacementText 21 = Js.of_ascii "21th"
  /\ - 2 ^ 53 < 21 < 2 ^ 53
  /\ getPlacementText (20 + 1) = getPlacementText 21
  /\ 20 + 1 = 21.
Proof.
  assert (Hb : - 2 ^ 53 < 21 < 2 ^ 53) by lia.
  split; [reflexivity|]. split; [exact Hb|]. split; [reflexivity|].
  apply (getPlacementText_injective (20 + 1) 21 Hb Hb). reflexivity.
Defined.

Lemma find_from_none {A} (f : A -> nat -> bool) (l : list A) i :
  (forall x j, f x j = false) -> find_from f l i = None.
Proof.
  intros Hf. revert i; induction l as [|x l IH]; intros i; simpl; [reflexivity|].
  rewrite Hf. apply IH.
Qed.

Lemma strict_eq_refl (x : Js.str) : Js.strict_eq (Some x) (Some x) = true.
Proof. apply strict_eq_spec. eauto. Qed.

(** The callback of the [find] in the class expression accepts the first
    row whenever it is the local socket's turn, and no row otherwise. *)
Lemma turn_row_is_the_first st :
  let players := GameState.players (gameState st) in
  find_from
    (fun p i =>
       Js.strict_eq (Player.name <$> players !! i) (Some (Player.name p))
       && my_turn st)
    players 0%nat
  = if my_turn st then players !! 0%nat else None.
Proof.
  intros players. destruct (my_turn st).
  - destruct players as [|p l]; cbn [find_from]; [reflexivity|].
    replace (Js.strict_eq (Player.name <$> (p :: l) !! 0%nat)
               (Some (Player.name p)))
      with true by (symmetry; apply strict_eq_refl).
    reflexivity.
  - apply find_from_none. intros. apply andb_false_r.
Qed.

(** X16. The Players panel of the board. A row gets the look of the
    current turn exactly when its player is not eliminated, it is the
    local socket's turn, and the player's name is the name typed locally
    or the name of the first player of the roster. So no row is marked
    while somebody else holds the turn, and namesakes are marked
    together. *)
Theorem row_marked_only_on_own_turn :
  forall (st : Client) (player : Player.t),
    row_style st player = row_current_turn
    <-> Player.isEliminated player = false
        /\ my_turn st = true
        /\ (Player.name player = playerName st
            \/ exists first,
                 GameState.players (gameState st) !! 0%nat = Some first
                 /\ Player.name first = Player.name player).
Proof.
  intros st player. unfold row_style. rewrite turn_row_is_the_first.
  destruct (Player.isEliminated player); [split; [discriminate | intros [[=] _]]|].
  destruct (my_turn st); simpl.
  - unfold Js.eqb at 1.
    destruct (bool_decide (Player.name player = playerName st)) eqn:Hn.
    + apply bool_decide_eq_true in Hn. split; auto.
    + apply bool_decide_eq_false in Hn.
      destruct (Js.strict_eq _ _) eqn:Hf.
      * apply strict_eq_spec in Hf as (x & Hx & [= <-]).
        destruct (GameState.players (gameState st) !! 0%nat) as [first|];
          [|discriminate].
        injection Hx as Hx. split; [|reflexivity]. intros _.
        split; [reflexivity|]. split; [reflexivity|]. right. eauto.
      * split; [discriminate|]. intros (_ & _ & [Hp | (first & Hfirst & Hname)]);
          [contradiction|].
        assert (Ht : Js.strict_eq
                       (Player.name <$> GameState.players (gameState st) !! 0%nat)
                       (Some (Player.name player)) = true).
        { apply strict_eq_spec. exists (Player.name player).
          rewrite Hfirst. simpl. rewrite Hname. auto. }
        congruence.
  - split; [discriminate | intros (_ & [=] & _)].
Qed.

(** ** Identity and roster *)

Lemma find_none_all_false {A} (f : A -> bool) (l : list A) :
  (forall x, x ∈ l -> f x = false) -> List.find f l = None.
Proof.
  induction l as [|x l IH]; intros H; simpl; [reflexivity|].
  rewrite (H x) by apply list_elem_of_here.
  apply IH. intros y Hy. apply H, list_elem_of_further, Hy.
Qed.

(** X17. A new handshake changes who the client takes itself for. After
    [connect] with an id that no participant of the roster has (a
    reconnection, the roster still holding the old id), the client does not
    find itself in the roster any more: clicking a number or Start Game
    does nothing, until a roster with the new id arrives. *)
Theorem reconnection_forgets_roster_entry :
  forall (st : Client) (id : Js.str),
    (forall p, p ∈ GameState.players (gameState st) -> Player.id p <> id) ->
    let st' := on_inbound (connect id) st in
    mySocketId st' = Some id
    /\ gameState st' = gameState st
    /\ find_me st' = None
    /\ (forall n, on_action (click_select n) st' = st')
    /\ on_action click_start st' = st'.
Proof.
  intros st id Hnew st'.
  assert (Hid : mySocketId st' = Some id)
    by (subst st'; simpl; unfold on_connect, socket_id; destruct st; reflexivity).
  assert (Hg : gameState st' = gameState st)
    by (subst st'; simpl; unfold on_connect, socket_id; destruct st; reflexivity).
  assert (Hme : find_me st' = None).
  { unfold find_me. rewrite Hid, Hg. apply find_none_all_false.
    intros p Hp. destruct (Js.strict_eq _ _) eqn:E; [|reflexivity].
    apply strict_eq_spec in E as (x & [= <-] & [= E]).
    exfalso. apply (Hnew p Hp). auto. }
  split; [exact Hid|]. split; [exact Hg|]. split; [exact Hme|]. split.
  - intros n. simpl. unfold select_button_rendered, me_without_number.
    rewrite Hme, andb_false_r. reflexivity.
  - simpl. unfold start_button_rendered, am_leader. rewrite Hid, Hg.
    destruct (GameState.players (gameState st)) as [|p l] eqn:Hl;
      [rewrite andb_false_r; reflexivity|].
    replace (Js.strict_eq (Player.id <$> (p :: l) !! 0%nat) (Some id))
      with false; [rewrite !andb_false_r; reflexivity|].
    symmetry. destruct (Js.strict_eq _ _) eqn:E; [|reflexivity].
    apply strict_eq_spec in E as (x & [= <-] & [= E]).
    exfalso. apply (Hnew p); [apply list_elem_of_here | auto].
Qed.

Lemma reconnection_forgets_roster_entry_witness :
  let id := Js.of_ascii "sock-A2" in
  find_me lobby_unpicked
  = Some (Player.mk Al None false None sA)
  /\ find_me (on_inbound (connect id) lobby_unpicked) = None.
Proof.
  intros id. split; [reflexivity|].
  refine (proj1 (proj2 (proj2
            (reconnection_forgets_roster_entry lobby_unpicked id _)))).
  intros p Hp. vm_compute in Hp.
  apply elem_of_cons in Hp as [-> | Hp];
    [|apply list_elem_of_singleton in Hp as ->]; discriminate.
Defined.

Lemma on_resetNumbers_untimed st : untimed (on_resetNumbers st) = untimed st.
Proof. unfold on_resetNumbers. destruct st; reflexivity. Qed.

Lemma on_playerList_untimed roster st st0 :
  untimed st = untimed st0 ->
  untimed (on_playerList roster st) = untimed (on_playerList roster st0).
Proof.
  unfold untimed, on_playerList. destruct st, st0; unfold_setters; simpl.
  intros [= -> -> -> -> -> -> -> -> -> -> -> -> -> -> -> -> ->]. reflexivity.
Qed.

(** X18. Choosing again after a duplicate. In the lobby, after
    [resetNumbers] and a roster in which the local participant, found by
    id, has no number, a click on a number of the pad sends [selectNumber]
    again and takes the duplicate-pick message away: what the client sent
    or showed before does not block a new choice. *)
Theorem selection_reopens_after_reset :
  forall (st : Client) (roster : list Player.t) (me : Player.t)
         (n t1 t2 t3 : Z),
    render st = LobbyScreen ->
    is_Some (socketRef st) ->
    List.find (fun p => Js.strict_eq (Some (Player.id p)) (mySocketId st)) roster
    = Some me ->
    Player.selectedNumber me = None ->
    n ∈ GameState.numbers (gameState st) ->
    let st' := run [(t1, recv resetNumbers);
                    (t2, recv (playerList roster));
                    (t3, user (click_select n))] st in
    emitted st' = emitted st ++ [selectNumber n]
    /\ error st' = None
    /\ justPickedNumber st' = true.
Proof.
  intros st roster me n t1 t2 t3 Hscreen Hsock Hfind Hsel Hn st'.
  subst st'. unfold run; simpl. unfold step; simpl.
  set (s := advance t3 (on_playerList roster
                          (advance t2 (on_resetNumbers (advance t1 st))))).
  assert (Hun : untimed s = untimed (on_playerList roster st)).
  { subst s. rewrite advance_untimed. apply on_playerList_untimed.
    rewrite advance_untimed, on_resetNumbers_untimed. apply advance_untimed. }
  assert (Hfacts :
    render s = LobbyScreen /\ gameOver s = false
    /\ find_me s = Some me
    /\ GameState.numbers (gameState s) = GameState.numbers (gameState st)
    /\ socketRef s = socketRef st /\ emitted s = emitted st).
  { assert (Hshape : GameState.gameStarted (gameState st) = false
                       /\ gameOver st = false).
    { apply on_screen_lobby_not_started. unfold on_screen.
      apply bool_decide_eq_true_2, Hscreen. }
    destruct Hshape as (Hst & Hgo).
    unfold find_me, render in *.
    unfold untimed, on_playerList in Hun.
    destruct s, st; unfold_setters; simpl in *.
    injection Hun as ? ? ? ? ? ? ? ? ? ? ? ? ? ? ? ? ?. subst. simpl in *.
    repeat split; auto. }
  destruct Hfacts as (Hr & Hgo & Hme & Hnum & Hsr & Hem).
  assert (Hpad : select_button_rendered n s = true).
  { unfold select_button_rendered, on_screen, me_without_number.
    rewrite Hr, Hme, Hsel, Hnum.
    rewrite !bool_decide_eq_true_2 by auto. reflexivity. }
  rewrite Hpad, handleNumberSelect_unfold, Hgo.
  replace (me_without_number s) with true
    by (unfold me_without_number; rewrite Hme, Hsel;
        symmetry; apply bool_decide_eq_true_2; reflexivity).
  destruct (arm_suppression_effects s) as (He & Hj & _ & Hm).
  destruct (arm_suppression_channel s) as (_ & Hch).
  destruct (emit_frame (selectNumber n) (arm_suppression s))
    as (-> & -> & _).
  split; [|split; assumption].
  rewrite emit_with_socket by (rewrite Hch, Hsr; exact Hsock).
  rewrite Hm, Hem. reflexivity.
Qed.

Lemma selection_reopens_after_reset_witness :
  let roster := [Player.mk Al None false None sA;
                 Player.mk Al None false None sB] in
  render lobby_picked = LobbyScreen
  /\ me_without_number lobby_picked = false
  /\ emitted (run [(2000, recv resetNumbers);
                   (2010, recv (playerList roster));
                   (2500, user (click_select 4))] lobby_picked)
     = emitted lobby_picked ++ [selectNumber 4].
Proof.
  intros roster. split; [reflexivity|]. split; [reflexivity|].
  refine (proj1 (selection_reopens_after_reset lobby_picked roster
                   (Player.mk Al None false None sA) 4 2000 2010 2500
                   eq_refl _ eq_refl eq_refl _)).
  - eexists. reflexivity.
  - vm_compute. do 3 apply list_elem_of_further. apply list_elem_of_here.
Defined.
